(** * EchoCast: the event-log reconciliation of the overlay

    A shallow embedding of the [setLogs] updater of
    [src/components/Overlay/EventOverlay.tsx] (the listener of the
    ['input-event'] channel) and of [getDisplayLabel], followed by the
    properties of the log it maintains.

    Conventions of the embedding.
    - A label is a [string]; its characters stand for the code units of the
      JavaScript string.  The line terminators among them are LF and CR.
    - [timestamp] and [count] are JavaScript numbers that only ever hold
      integers here; they are [Z].
    - An [id] is the value of [Date.now() + Math.random()] at the moment the
      item is created.  The two reads are the fields of [Env].  In the
      first part the sum is the exact rational; the run-time adds doubles,
      so every property about ids, and every property that must hold for
      all button names, is stated over [Runtime], where the addition and
      the regular expressions of the run-time are parameters.
    - [isTypingSequence?: boolean] is an optional field: [None] is
      JavaScript's [undefined]. *)

From Stdlib Require Import ZArith QArith List String Ascii Bool Lia.
From Stdlib Require Import Decimal DecimalNat DecimalString Sorted SetoidList.
Import ListNotations.

Local Open Scope string_scope.
Local Open Scope list_scope.
Local Open Scope Z_scope.

(** ** Data model *)

Inductive EventType : Set :=
| mousemove | mousedown | mouseup | click | doubleclick
| key | system | dragstart | drag.

Definition EventType_eqb (a b : EventType) : bool :=
  match a, b with
  | mousemove, mousemove | mousedown, mousedown | mouseup, mouseup
  | click, click | doubleclick, doubleclick | key, key
  | system, system | dragstart, dragstart | drag, drag => true
  | _, _ => false
  end.

Record InputEventPayload : Set := mkPayload {
  event_type : EventType;
  label : string;
  timestamp : Z
}.

Record LogItem : Set := mkLogItem {
  id : Q;
  payload : InputEventPayload;
  count : Z;
  isTypingSequence : option bool
}.

(** The two impure reads of one update: [Date.now()] and [Math.random()]. *)
Record Env : Set := mkEnv {
  Date_now : Z;
  Math_random : Q
}.

(** [Date.now() + Math.random()] *)
Definition fresh_id (env : Env) : Q := (inject_Z (Date_now env) + Math_random env)%Q.

(** ** Label helpers (the regular expressions of the source) *)

Module Label.

Definition is_line_terminator (c : ascii) : bool :=
  Ascii.eqb c "010" || Ascii.eqb c "013".

Definition eq_ci (lower upper c : ascii) : bool :=
  Ascii.eqb c lower || Ascii.eqb c upper.

(** [s.replace(/^@key\[/i, '')] *)
Definition strip_key_prefix (s : string) : string :=
  match s with
  | String c0 (String c1 (String c2 (String c3 (String c4 rest)))) =>
      if Ascii.eqb c0 "@" && eq_ci "k" "K" c1 && eq_ci "e" "E" c2
         && eq_ci "y" "Y" c3 && Ascii.eqb c4 "["
      then rest else s
  | _ => s
  end.

(** [s.replace(/\]$/, '')]: without the [m] flag [$] is the end of input. *)
Fixpoint strip_close (s : string) : string :=
  match s with
  | EmptyString => EmptyString
  | String c EmptyString => if Ascii.eqb c "]" then EmptyString else s
  | String c s' => String c (strip_close s')
  end.

(** [label.replace(/^@key\[/i, '').replace(/\]$/, '')] *)
Definition bare (lbl : string) : string := strip_close (strip_key_prefix lbl).

Definition alnum (c : ascii) : bool :=
  let n := N_of_ascii c in
  ((97 <=? n) && (n <=? 122) || (65 <=? n) && (n <=? 90)
   || (48 <=? n) && (n <=? 57))%N.

(** [const isTextKey = (lbl) => /^[a-zA-Z0-9]$/.test(lbl)] *)
Definition isTextKey (lbl : string) : bool :=
  match lbl with
  | String c EmptyString => alnum c
  | _ => false
  end.

(** The lazy [.*?\[] after the leading [@] of [/^@.*?\[/]: what follows the
    first opening bracket, when no line terminator comes before it. *)
Fixpoint after_open (s : string) : option string :=
  match s with
  | EmptyString => None
  | String c s' =>
      if Ascii.eqb c "[" then Some s'
      else if is_line_terminator c then None
      else after_open s'
  end.

(** [s.replace(/^@.*?\[/, '')] *)
Definition strip_tag (s : string) : string :=
  match s with
  | String c s' =>
      if Ascii.eqb c "@"
      then match after_open s' with Some r => r | None => s end
      else s
  | EmptyString => s
  end.

(** The lazy [(.*?)\]] right after an opening bracket: the captured group. *)
Fixpoint group_at (s : string) : option string :=
  match s with
  | EmptyString => None
  | String c s' =>
      if Ascii.eqb c "]" then Some EmptyString
      else if is_line_terminator c then None
      else option_map (String c) (group_at s')
  end.

(** [const m = s.match(/\[(.*?)\]/); m ? m[1] : null]: the leftmost
    position at which the pattern matches decides. *)
Fixpoint first_group (s : string) : option string :=
  match s with
  | EmptyString => None
  | String c s' =>
      if Ascii.eqb c "["
      then match group_at s' with
           | Some g => Some g
           | None => first_group s'
           end
      else first_group s'
  end.

(** [needle] occurs in [s] at its start / somewhere. *)
Fixpoint contains (needle s : string) : bool :=
  String.prefix needle s
  || match s with
     | EmptyString => false
     | String _ s' => contains needle s'
     end.

End Label.

(** ** [new RegExp(source)] and [label.match(pattern)]

    The click pattern is built from the button name by string interpolation,
    so the name is read as pattern syntax.  The fragment modelled: literal
    characters, escaped syntax characters, the dot, and the quantifiers
    [*], [+] and [?] (greedy or lazy) on one of those.  A source outside this
    fragment yields [None]: the constructor then either throws a
    [SyntaxError] or builds a pattern with groups, classes, alternation,
    assertions or other escapes, none of which is modelled.  Statements made
    with this module are therefore about button names inside the fragment;
    the statements for all names are made over [Runtime] below. *)

Module RegExp.

Inductive atom : Set := Lit (c : ascii) | AnyChar.
Inductive quant : Set := Once | Star | Plus | Opt.
Inductive token : Set := TAtom (a : atom) | TQuant (q : quant).

Definition pattern : Set := list (atom * quant).

(** [SyntaxCharacter] of the pattern grammar. *)
Definition syntax_char (c : ascii) : bool :=
  existsb (Ascii.eqb c)
    (list_ascii_of_string "^$\.*+?()[]{}|").

(** What a backslash may precede and then stands for itself: a syntax
    character or the slash. *)
Definition identity_escape (c : ascii) : bool :=
  syntax_char c || Ascii.eqb c "/".

Fixpoint tokens (src : string) : option (list token) :=
  match src with
  | EmptyString => Some []
  | String c rest =>
      if Ascii.eqb c "\" then
        match rest with
        | String e rest' =>
            if identity_escape e
            then option_map (cons (TAtom (Lit e))) (tokens rest')
            else None
        | EmptyString => None
        end
      else if Ascii.eqb c "." then option_map (cons (TAtom AnyChar)) (tokens rest)
      else if Ascii.eqb c "*" then option_map (cons (TQuant Star)) (tokens rest)
      else if Ascii.eqb c "+" then option_map (cons (TQuant Plus)) (tokens rest)
      else if Ascii.eqb c "?" then option_map (cons (TQuant Opt)) (tokens rest)
      else if syntax_char c then None
      else option_map (cons (TAtom (Lit c))) (tokens rest)
  end.

(** An atom, then at most one quantifier, then at most one [?] making the
    quantifier lazy.  A quantifier with nothing to repeat is an error. *)
Fixpoint pieces (ts : list token) : option pattern :=
  match ts with
  | [] => Some []
  | TQuant _ :: _ => None
  | TAtom a :: r1 =>
      match r1 with
      | TQuant q :: r2 =>
          match r2 with
          | TQuant Opt :: r3 => option_map (cons (a, q)) (pieces r3)
          | _ => option_map (cons (a, q)) (pieces r2)
          end
      | _ => option_map (cons (a, Once)) (pieces r1)
      end
  end.

(** [new RegExp(src)] *)
Definition make (src : string) : option pattern :=
  match tokens src with
  | Some ts => pieces ts
  | None => None
  end.

Definition atom_ok (a : atom) (c : ascii) : bool :=
  match a with
  | Lit x => Ascii.eqb x c
  | AnyChar => negb (Label.is_line_terminator c)
  end.

(** Is there a match of the pattern that starts at the head of [s]?  For
    this fragment a back-tracking matcher finds a match exactly when one
    exists, so greedy and lazy quantifiers need not be told apart. *)
Fixpoint match_here (p : pattern) : string -> bool :=
  match p with
  | [] => fun _ => true
  | (a, q) :: p' =>
      let rest := match_here p' in
      let star :=
        fix star (s : string) : bool :=
          rest s
          || match s with
             | String c s' => atom_ok a c && star s'
             | EmptyString => false
             end in
      fun s =>
        match q with
        | Once =>
            match s with
            | String c s' => atom_ok a c && rest s'
            | EmptyString => false
            end
        | Opt =>
            rest s
            || match s with
               | String c s' => atom_ok a c && rest s'
               | EmptyString => false
               end
        | Star => star s
        | Plus =>
            match s with
            | String c s' => atom_ok a c && star s'
            | EmptyString => false
            end
        end
  end.

(** [s.match(p)] is truthy: the pattern matches at some position of [s]. *)
Fixpoint test (p : pattern) (s : string) : bool :=
  match_here p s
  || match s with
     | String _ s' => test p s'
     | EmptyString => false
     end.

End RegExp.

(** ** The updater passed to [setLogs] *)

(** A block of the updater either returns the new log or falls through to
    the next block. *)
Inductive Step (A : Type) : Type :=
| Return (a : A)
| Continue.
Arguments Return {A} a.
Arguments Continue {A}.

Definition or_else {A : Type} (s : Step A) (k : A) : A :=
  match s with
  | Return a => a
  | Continue => k
  end.

Notation "s 'orelse' k" := (or_else s k) (at level 60, right associativity).

Definition when {A : Type} (c : bool) (s : Step A) : Step A :=
  if c then s else Continue.

Definition step_map {A B : Type} (f : A -> B) (s : Step A) : Step B :=
  match s with
  | Return a => Return (f a)
  | Continue => Continue
  end.

(** [prevLogs[prevLogs.length - 1]] *)
Fixpoint last_log (l : list LogItem) : option LogItem :=
  match l with
  | [] => None
  | [x] => Some x
  | _ :: l' => last_log l'
  end.

(** [newLogs.length > 20 ? newLogs.slice(newLogs.length - 20) : newLogs] *)
Definition keep_last_20 (newLogs : list LogItem) : list LogItem :=
  if (20 <? List.length newLogs)%nat
  then skipn (List.length newLogs - 20) newLogs
  else newLogs.

(** [[...prevLogs.slice(0, -1), item]] *)
Definition replace_last (prevLogs : list LogItem) (item : LogItem) : list LogItem :=
  removelast prevLogs ++ [item].

(** [lastLog.isTypingSequence] read as a condition *)
Definition truthy (b : option bool) : bool :=
  match b with
  | Some true => true
  | _ => false
  end.

(** [{ ...lastLog, payload: newEvent, count: lastLog.count + 1 }] *)
Definition moved_item (lastLog : LogItem) (newEvent : InputEventPayload) : LogItem :=
  mkLogItem (id lastLog) newEvent (count lastLog + 1) (isTypingSequence lastLog).

(** [{ ...lastLog, count: lastLog.count + 1 }] *)
Definition repeated_item (lastLog : LogItem) : LogItem :=
  mkLogItem (id lastLog) (payload lastLog) (count lastLog + 1)
            (isTypingSequence lastLog).

(** [{ ...lastLog, payload: { ...lastLog.payload, label: updatedLabel,
       timestamp: newEvent.timestamp }, count: 1 }] with
    [updatedLabel = `@Key[${currentContent}${newLabel}]`] *)
Definition typed_item (lastLog : LogItem) (newEvent : InputEventPayload) : LogItem :=
  let newLabel := Label.bare (label newEvent) in
  let lastLabel := Label.bare (label (payload lastLog)) in
  let updatedLabel := ("@Key[" ++ lastLabel ++ newLabel ++ "]")%string in
  mkLogItem (id lastLog)
    (mkPayload (event_type (payload lastLog)) updatedLabel (timestamp newEvent))
    1 (isTypingSequence lastLog).

(** [{ id: Date.now() + Math.random(), payload: newEvent, count: 1,
       isTypingSequence: isNewTypingSequence }] *)
Definition new_key_item (env : Env) (newEvent : InputEventPayload) : LogItem :=
  mkLogItem (fresh_id env) newEvent 1
    (Some (Label.isTextKey (Label.bare (label newEvent)))).

(** [{ id: Date.now() + Math.random(), payload: newEvent, count: 1 }] *)
Definition new_item (env : Env) (newEvent : InputEventPayload) : LogItem :=
  mkLogItem (fresh_id env) newEvent 1 None.

(** "MouseMove optimization" *)
Definition mousemove_block (newEvent : InputEventPayload)
    (prevLogs : list LogItem) : Step (list LogItem) :=
  match last_log prevLogs with
  | Some lastLog =>
      if EventType_eqb (event_type newEvent) mousemove
         && EventType_eqb (event_type (payload lastLog)) mousemove
      then Return (replace_last prevLogs (moved_item lastLog newEvent))
      else Continue
  | None => Continue
  end.

(** "Key combo optimization" (entered only for a key event; always returns) *)
Definition key_block (env : Env) (newEvent : InputEventPayload)
    (prevLogs : list LogItem) : list LogItem :=
  let newLabel := Label.bare (label newEvent) in
  let new_entry := keep_last_20 (prevLogs ++ [new_key_item env newEvent]) in
  match last_log prevLogs with
  | Some lastLog =>
      if EventType_eqb (event_type (payload lastLog)) key
         && String.eqb (label (payload lastLog)) (label newEvent)
      then replace_last prevLogs (repeated_item lastLog)
      else if EventType_eqb (event_type (payload lastLog)) key
              && Label.isTextKey newLabel
              && truthy (isTypingSequence lastLog)
      then replace_last prevLogs (typed_item lastLog newEvent)
      else new_entry
  | None => new_entry
  end.

(** The [filter] callback of the two cleanup blocks; [kinds] is the array
    literal tested with [includes]. *)
Definition cleanup_keeps (kinds : list EventType) (clickPattern : RegExp.pattern)
    (newEvent : InputEventPayload) (log : LogItem) : bool :=
  if 500 <? timestamp newEvent - timestamp (payload log) then true
  else if existsb (EventType_eqb (event_type (payload log))) kinds
          && RegExp.test clickPattern (label (payload log))
  then false
  else true.

(** "Click Cleanup Logic" and "DoubleClick Cleanup Logic": the body of the
    [if (newEvent.event_type === ...)] once the kind has been tested.  The
    inner [None] is a pattern source outside the modelled fragment. *)
Definition cleanup_block (kinds : list EventType) (env : Env)
    (newEvent : InputEventPayload) (prevLogs : list LogItem)
    : Step (option (list LogItem)) :=
  match Label.first_group (label newEvent) with
  | Some btnName =>
      if String.eqb btnName "" then Continue
      else
        Return
          match RegExp.make ("\[" ++ btnName ++ "\]")%string with
          | Some clickPattern =>
              let cleanedLogs :=
                filter (cleanup_keeps kinds clickPattern newEvent) prevLogs in
              Some (cleanedLogs ++ [new_item env newEvent])
          | None => None
          end
  | None => Continue
  end.

(** "Normal Add" *)
Definition normal_add (env : Env) (newEvent : InputEventPayload)
    (prevLogs : list LogItem) : list LogItem :=
  keep_last_20 (prevLogs ++ [new_item env newEvent]).

(** [prevLogs => { ... }] *)
Definition setLogs_updater (env : Env) (newEvent : InputEventPayload)
    (prevLogs : list LogItem) : option (list LogItem) :=
  step_map Some (mousemove_block newEvent prevLogs) orelse
  when (EventType_eqb (event_type newEvent) key)
       (Return (Some (key_block env newEvent prevLogs))) orelse
  when (EventType_eqb (event_type newEvent) click)
       (cleanup_block [mousedown; mouseup] env newEvent prevLogs) orelse
  when (EventType_eqb (event_type newEvent) doubleclick)
       (cleanup_block [click; mousedown; mouseup] env newEvent prevLogs) orelse
  Some (normal_add env newEvent prevLogs).

(** The listener of ['input-event']: [showSettings] is the paused flag
    ([if (showSettingsRef.current) return;]). *)
Definition on_input_event (env : Env) (showSettings : bool)
    (newEvent : InputEventPayload) (logs : list LogItem)
    : option (list LogItem) :=
  if showSettings then Some logs else setLogs_updater env newEvent logs.

(** Events applied in order, each with its own clock and random read. *)
Fixpoint feed (evs : list (Env * InputEventPayload)) (l : list LogItem)
    : option (list LogItem) :=
  match evs with
  | [] => Some l
  | (env, e) :: evs' =>
      match setLogs_updater env e l with
      | Some l' => feed evs' l'
      | None => None
      end
  end.

(** [getDisplayLabel] *)
Definition getDisplayLabel (p : InputEventPayload) : string :=
  Label.strip_close (Label.strip_tag (label p)).

(** ** The updater over any run-time

    The updater calls two things that are not code of the repository: the
    regular expressions of the run-time ([new RegExp], [String.match]) and
    its number addition ([Date.now() + Math.random()], a sum of doubles).
    Here both are parameters.  [RegExp_new src] is [None] when the
    constructor throws a [SyntaxError] and otherwise the test "the label has
    a match"; [number_add] gives the value of the sum.  The definitions above
    are the instance [model_runtime]: the pattern fragment of [RegExp] and
    the exact sum. *)

Record Runtime : Type := mkRuntime {
  RegExp_new : string -> option (string -> bool);
  number_add : Z -> Q -> Q
}.

(** [Date.now() + Math.random()] as the run-time computes it. *)
Definition id_of (R : Runtime) (env : Env) : Q :=
  number_add R (Date_now env) (Math_random env).

(** The row a new-entry path appends, with the id [i]. *)
Definition appended_with (i : Q) (newEvent : InputEventPayload) : LogItem :=
  if EventType_eqb (event_type newEvent) key
  then mkLogItem i newEvent 1 (Some (Label.isTextKey (Label.bare (label newEvent))))
  else mkLogItem i newEvent 1 None.

(** "Key combo optimization" *)
Definition key_block_with (R : Runtime) (env : Env) (newEvent : InputEventPayload)
    (prevLogs : list LogItem) : list LogItem :=
  let newLabel := Label.bare (label newEvent) in
  let new_entry :=
    keep_last_20
      (prevLogs ++ [mkLogItem (id_of R env) newEvent 1
                              (Some (Label.isTextKey newLabel))]) in
  match last_log prevLogs with
  | Some lastLog =>
      if EventType_eqb (event_type (payload lastLog)) key
         && String.eqb (label (payload lastLog)) (label newEvent)
      then replace_last prevLogs (repeated_item lastLog)
      else if EventType_eqb (event_type (payload lastLog)) key
              && Label.isTextKey newLabel
              && truthy (isTypingSequence lastLog)
      then replace_last prevLogs (typed_item lastLog newEvent)
      else new_entry
  | None => new_entry
  end.

(** The [filter] callback of the two cleanup blocks; [matches] is
    [label => label.match(clickPattern)] read as a condition. *)
Definition cleanup_keeps_with (kinds : list EventType) (matches : string -> bool)
    (newEvent : InputEventPayload) (log : LogItem) : bool :=
  if 500 <? timestamp newEvent - timestamp (payload log) then true
  else if existsb (EventType_eqb (event_type (payload log))) kinds
          && matches (label (payload log))
  then false
  else true.

(** "Click Cleanup Logic" and "DoubleClick Cleanup Logic"; the inner [None]
    is the [SyntaxError] of [new RegExp]. *)
Definition cleanup_block_with (R : Runtime) (kinds : list EventType) (env : Env)
    (newEvent : InputEventPayload) (prevLogs : list LogItem)
    : Step (option (list LogItem)) :=
  match Label.first_group (label newEvent) with
  | Some btnName =>
      if String.eqb btnName "" then Continue
      else
        Return
          match RegExp_new R ("\[" ++ btnName ++ "\]")%string with
          | Some matches =>
              let cleanedLogs :=
                filter (cleanup_keeps_with kinds matches newEvent) prevLogs in
              Some (cleanedLogs ++ [mkLogItem (id_of R env) newEvent 1 None])
          | None => None
          end
  | None => Continue
  end.

(** [prevLogs => { ... }] *)
Definition setLogs_updater_with (R : Runtime) (env : Env)
    (newEvent : InputEventPayload) (prevLogs : list LogItem)
    : option (list LogItem) :=
  step_map Some (mousemove_block newEvent prevLogs) orelse
  when (EventType_eqb (event_type newEvent) key)
       (Return (Some (key_block_with R env newEvent prevLogs))) orelse
  when (EventType_eqb (event_type newEvent) click)
       (cleanup_block_with R [mousedown; mouseup] env newEvent prevLogs) orelse
  when (EventType_eqb (event_type newEvent) doubleclick)
       (cleanup_block_with R [click; mousedown; mouseup] env newEvent prevLogs) orelse
  Some (keep_last_20 (prevLogs ++ [mkLogItem (id_of R env) newEvent 1 None])).


(** Events applied in order; [None] as soon as one update throws. *)
Fixpoint feed_with (R : Runtime) (evs : list (Env * InputEventPayload))
    (l : list LogItem) : option (list LogItem) :=
  match evs with
  | [] => Some l
  | (env, e) :: evs' =>
      match setLogs_updater_with R env e l with
      | Some l' => feed_with R evs' l'
      | None => None
      end
  end.

(** The run-time of the definitions above. *)
Definition model_runtime : Runtime :=
  mkRuntime (fun src => option_map RegExp.test (RegExp.make src))
            (fun now random => (inject_Z now + random)%Q).

(** ** Which rule an event takes *)

(** The event is absorbed by the last row: pointer-move coalescing, exact
    key repeat or typing continuation. *)
Definition merges_into_last (newEvent : InputEventPayload)
    (prevLogs : list LogItem) : bool :=
  match last_log prevLogs with
  | Some lastLog =>
      EventType_eqb (event_type newEvent) mousemove
      && EventType_eqb (event_type (payload lastLog)) mousemove
      || EventType_eqb (event_type newEvent) key
         && EventType_eqb (event_type (payload lastLog)) key
         && (String.eqb (label (payload lastLog)) (label newEvent)
             || Label.isTextKey (Label.bare (label newEvent))
                && truthy (isTypingSequence lastLog))
  | None => false
  end.

(** [btnName] is truthy: the label has a first bracketed group and it is
    not the empty string. *)
Definition has_button (lbl : string) : bool :=
  match Label.first_group lbl with
  | Some btnName => negb (String.eqb btnName "")
  | None => false
  end.

(** The event is handled by a cleanup block (click or double-click
    de-duplication). *)
Definition dedups (newEvent : InputEventPayload) : bool :=
  (EventType_eqb (event_type newEvent) click
   || EventType_eqb (event_type newEvent) doubleclick)
  && has_button (label newEvent).

(** The row the two new-entry paths append. *)
Definition appended_item (env : Env) (newEvent : InputEventPayload) : LogItem :=
  if EventType_eqb (event_type newEvent) key
  then new_key_item env newEvent
  else new_item env newEvent.

(** A button name without pattern syntax. *)
Definition literal_name (btnName : string) : bool :=
  forallb (fun c => negb (RegExp.syntax_char c)) (list_ascii_of_string btnName).

(** ** Presentation: the filter map and the rows shown *)

(** The state [filters]: one flag per event kind. *)
Record Filters : Set := mkFilters {
  show_mousemove : bool; show_mousedown : bool; show_mouseup : bool;
  show_click : bool; show_doubleclick : bool; show_key : bool;
  show_system : bool; show_drag : bool; show_dragstart : bool
}.

(** [useState({ mousemove: true, mousedown: true, mouseup: true, click: true,
       doubleclick: true, key: true, system: true, drag: true,
       dragstart: false })] *)
Definition initial_filters : Filters :=
  mkFilters true true true true true true true true false.

(** [filters[t]] *)
Definition filter_of (f : Filters) (t : EventType) : bool :=
  match t with
  | mousemove => show_mousemove f
  | mousedown => show_mousedown f
  | mouseup => show_mouseup f
  | click => show_click f
  | doubleclick => show_doubleclick f
  | key => show_key f
  | system => show_system f
  | drag => show_drag f
  | dragstart => show_dragstart f
  end.

(** [setFilters(prev => ({ ...prev, [key]: e.target.checked }))] *)
Definition set_filter (k : EventType) (checked : bool) (prev : Filters) : Filters :=
  match k with
  | mousemove => mkFilters checked (show_mousedown prev) (show_mouseup prev)
      (show_click prev) (show_doubleclick prev) (show_key prev)
      (show_system prev) (show_drag prev) (show_dragstart prev)
  | mousedown => mkFilters (show_mousemove prev) checked (show_mouseup prev)
      (show_click prev) (show_doubleclick prev) (show_key prev)
      (show_system prev) (show_drag prev) (show_dragstart prev)
  | mouseup => mkFilters (show_mousemove prev) (show_mousedown prev) checked
      (show_click prev) (show_doubleclick prev) (show_key prev)
      (show_system prev) (show_drag prev) (show_dragstart prev)
  | click => mkFilters (show_mousemove prev) (show_mousedown prev)
      (show_mouseup prev) checked (show_doubleclick prev) (show_key prev)
      (show_system prev) (show_drag prev) (show_dragstart prev)
  | doubleclick => mkFilters (show_mousemove prev) (show_mousedown prev)
      (show_mouseup prev) (show_click prev) checked (show_key prev)
      (show_system prev) (show_drag prev) (show_dragstart prev)
  | key => mkFilters (show_mousemove prev) (show_mousedown prev)
      (show_mouseup prev) (show_click prev) (show_doubleclick prev) checked
      (show_system prev) (show_drag prev) (show_dragstart prev)
  | system => mkFilters (show_mousemove prev) (show_mousedown prev)
      (show_mouseup prev) (show_click prev) (show_doubleclick prev)
      (show_key prev) checked (show_drag prev) (show_dragstart prev)
  | drag => mkFilters (show_mousemove prev) (show_mousedown prev)
      (show_mouseup prev) (show_click prev) (show_doubleclick prev)
      (show_key prev) (show_system prev) checked (show_dragstart prev)
  | dragstart => mkFilters (show_mousemove prev) (show_mousedown prev)
      (show_mouseup prev) (show_click prev) (show_doubleclick prev)
      (show_key prev) (show_system prev) (show_drag prev) checked
  end.

(** The [key]s of the array the settings panel maps to checkboxes. *)
Definition filter_keys : list EventType :=
  [mousemove; click; doubleclick; key; drag; system].

(** The checkboxes changed so far, oldest first, applied to the filters. *)
Fixpoint check_all (changes : list (EventType * bool)) (f : Filters) : Filters :=
  match changes with
  | [] => f
  | (k, checked) :: changes' => check_all changes' (set_filter k checked f)
  end.

(** [logs.filter(log => filters[log.payload.event_type])] *)
Definition shown (f : Filters) (logs : list LogItem) : list LogItem :=
  filter (fun log => filter_of f (event_type (payload log))) logs.

(** [const isLatest = index === logs.length - 1], where [index] counts the
    rows of the filtered array and [logs] is the whole log. *)
Definition isLatest (logs : list LogItem) (index : nat) : bool :=
  Z.of_nat index =? Z.of_nat (List.length logs) - 1.

(** ** The monitor buttons *)

(** What the code reads of a monitor: its name ([string | null]). *)
Record Monitor : Set := mkMonitor {
  name : option string;
  position : Z * Z;
  size : Z * Z
}.

(** [`Monitor ${idx + 1}`] *)
Definition numbered (idx : nat) : string :=
  "Monitor " ++ NilEmpty.string_of_uint (Nat.to_uint (idx + 1)).

(** [m.name || `Monitor ${idx + 1}`]: a missing or empty name is falsy. *)
Definition monitor_label (idx : nat) (m : Monitor) : string :=
  match name m with
  | Some n => if String.eqb n "" then numbered idx else n
  | None => numbered idx
  end.

(** [monitors.find(m => (m.name || `Monitor ${monitors.indexOf(m) + 1}`)
       === monitorName)], scanning from index [idx].  The elements of the
    array are taken to be distinct objects, as [availableMonitors()] returns
    them, so [monitors.indexOf(m)] is the index at which [m] is visited. *)
Fixpoint find_from (idx : nat) (monitors : list Monitor) (monitorName : string)
    : option (nat * Monitor) :=
  match monitors with
  | [] => None
  | m :: rest =>
      if String.eqb (monitor_label idx m) monitorName then Some (idx, m)
      else find_from (S idx) rest monitorName
  end.

(** The [target] of [changeMonitor(monitorName)]; [None] is the early
    [return]. *)
Definition changeMonitor_target (monitors : list Monitor) (monitorName : string)
    : option (nat * Monitor) :=
  find_from 0 monitors monitorName.

(** ** Sample data *)

Definition env0 : Env := mkEnv 1000 (1 # 2).
Definition env1 : Env := mkEnv 2000 (1 # 2).

Definition ev (t : EventType) (lbl : string) (ts : Z) : InputEventPayload :=
  mkPayload t lbl ts.

(** [n] system events, one per millisecond. *)
Definition system_events (n : nat) : list (Env * InputEventPayload) :=
  map (fun k => (mkEnv (Z.of_nat k) 0, ev system "Sleep" (Z.of_nat k))) (seq 0 n).

(** The log after those events, from the empty log. *)
Definition system_log (n : nat) : list LogItem :=
  map (fun k => new_item (mkEnv (Z.of_nat k) 0) (ev system "Sleep" (Z.of_nat k)))
      (seq 0 n).

(** ** Lists: the last row, truncation *)

Section Lists.

Lemma last_log_snoc (l : list LogItem) (x : LogItem) :
  last_log (l ++ [x]) = Some x.
Proof.
  induction l as [|y l IH]; [reflexivity|].
  simpl. destruct (l ++ [x]) eqn:E; [|exact IH].
  destruct l; discriminate.
Qed.

Lemma last_log_split (l : list LogItem) (x : LogItem) :
  last_log l = Some x -> l = removelast l ++ [x].
Proof.
  induction l as [|y l IH]; [discriminate|].
  destruct l as [|z l'].
  - simpl. now intros [= ->].
  - intros H. change (last_log (z :: l') = Some x) in H.
    change (removelast (y :: z :: l')) with (y :: removelast (z :: l')).
    simpl app. f_equal. exact (IH H).
Qed.

Lemma replace_last_length (l : list LogItem) (x y : LogItem) :
  last_log l = Some x -> List.length (replace_last l y) = List.length l.
Proof.
  intros H. unfold replace_last.
  rewrite (last_log_split l x H) at 2.
  now rewrite !length_app.
Qed.

Lemma replace_last_snoc (l : list LogItem) (x y : LogItem) :
  replace_last (l ++ [x]) y = l ++ [y].
Proof. unfold replace_last. now rewrite removelast_last. Qed.

Lemma keep_last_20_snoc (l : list LogItem) (x : LogItem) :
  keep_last_20 (l ++ [x]) = skipn (List.length l - 19) l ++ [x].
Proof.
  unfold keep_last_20. rewrite length_app. simpl List.length.
  destruct (Nat.ltb_spec 20 (List.length l + 1)) as [H|H].
  - rewrite skipn_app.
    replace (List.length l + 1 - 20)%nat with (List.length l - 19)%nat by lia.
    replace (List.length l - 19 - List.length l)%nat with 0%nat by lia.
    reflexivity.
  - replace (List.length l - 19)%nat with 0%nat by lia. reflexivity.
Qed.

Lemma keep_last_20_length (l : list LogItem) :
  (List.length (keep_last_20 l) <= 20)%nat.
Proof.
  unfold keep_last_20.
  destruct (Nat.ltb_spec 20 (List.length l)) as [H|H]; [|exact H].
  rewrite length_skipn. lia.
Qed.

Lemma keep_last_20_full (l : list LogItem) (x : LogItem) :
  List.length l = 20%nat -> keep_last_20 (l ++ [x]) = tl l ++ [x].
Proof.
  intros H. rewrite keep_last_20_snoc, H.
  destruct l; [discriminate|reflexivity].
Qed.

Lemma keep_last_20_room (l : list LogItem) (x : LogItem) :
  (List.length l < 20)%nat -> keep_last_20 (l ++ [x]) = l ++ [x].
Proof.
  intros H. rewrite keep_last_20_snoc.
  now replace (List.length l - 19)%nat with 0%nat by lia.
Qed.

End Lists.

(** ** Which block answers *)

Lemma EventType_eqb_eq (a b : EventType) : EventType_eqb a b = true <-> a = b.
Proof. split; [destruct a, b; (reflexivity || discriminate)|intros ->; now destruct b]. Qed.

Lemma updater_mousemove env e l lastLog :
  last_log l = Some lastLog ->
  event_type (payload lastLog) = mousemove ->
  event_type e = mousemove ->
  setLogs_updater env e l = Some (replace_last l (moved_item lastLog e)).
Proof.
  intros Hl Hk He. unfold setLogs_updater, mousemove_block.
  now rewrite Hl, Hk, He.
Qed.

Lemma updater_key env e l :
  event_type e = key ->
  setLogs_updater env e l = Some (key_block env e l).
Proof.
  intros He. unfold setLogs_updater, mousemove_block.
  rewrite He. simpl. now destruct (last_log l).
Qed.

Lemma mousemove_block_continue e l :
  merges_into_last e l = false -> mousemove_block e l = Continue.
Proof.
  unfold merges_into_last, mousemove_block.
  destruct (last_log l) as [ll|]; [|reflexivity].
  intros H. apply orb_false_iff in H as [-> _]. reflexivity.
Qed.

Lemma key_block_new_entry env e l :
  event_type e = key ->
  merges_into_last e l = false ->
  key_block env e l = keep_last_20 (l ++ [new_key_item env e]).
Proof.
  unfold merges_into_last, key_block. intros He.
  destruct (last_log l) as [ll|]; [|reflexivity].
  rewrite He.
  destruct (EventType_eqb (event_type (payload ll)) key),
    (String.eqb (label (payload ll)) (label e)),
    (Label.isTextKey (Label.bare (label e))),
    (truthy (isTypingSequence ll)); simpl; intros H;
    (reflexivity || discriminate H).
Qed.

Lemma cleanup_block_continue kinds env e l :
  has_button (label e) = false -> cleanup_block kinds env e l = Continue.
Proof.
  unfold has_button, cleanup_block.
  destruct (Label.first_group (label e)) as [b|]; [|reflexivity].
  intros H. apply negb_false_iff in H. now rewrite H.
Qed.

(** The two new-entry paths: no merge with the last row, no cleanup block. *)
Lemma updater_new_entry env e l :
  merges_into_last e l = false ->
  dedups e = false ->
  setLogs_updater env e l = Some (keep_last_20 (l ++ [appended_item env e])).
Proof.
  intros Hm Hd. unfold setLogs_updater, appended_item.
  rewrite (mousemove_block_continue e l Hm). simpl.
  destruct (EventType_eqb (event_type e) key) eqn:Hk.
  - simpl. apply EventType_eqb_eq in Hk.
    now rewrite (key_block_new_entry env e l Hk Hm).
  - simpl. unfold dedups in Hd.
    destruct (EventType_eqb (event_type e) click) eqn:Hc;
      destruct (EventType_eqb (event_type e) doubleclick) eqn:Hdc;
      simpl in Hd |- *;
      repeat rewrite cleanup_block_continue by exact Hd;
      reflexivity.
Qed.

(** ** Pointer-move coalescing *)

(** C9: when the last row is a pointer-move and a pointer-move arrives, the
    log keeps its length, the last row takes the incoming event and its
    repeat count grows by one, and every other row is unchanged.  Hence two
    consecutive pointer-moves arriving on a log whose tail does not absorb
    the first leave one new row, with repeat count 2. *)
Theorem mousemove_coalescing :
  (forall env e l lastLog,
      last_log l = Some lastLog ->
      event_type (payload lastLog) = mousemove ->
      event_type e = mousemove ->
      exists l',
        setLogs_updater env e l = Some l'
        /\ l' = removelast l
                ++ [mkLogItem (id lastLog) e (count lastLog + 1)
                              (isTypingSequence lastLog)]
        /\ List.length l' = List.length l
        /\ removelast l' = removelast l)
  /\ (forall envA envB e1 e2 l,
      event_type e1 = mousemove ->
      event_type e2 = mousemove ->
      merges_into_last e1 l = false ->
      exists older,
        setLogs_updater envA e1 l = Some (older ++ [new_item envA e1])
        /\ setLogs_updater envB e2 (older ++ [new_item envA e1])
           = Some (older ++ [mkLogItem (fresh_id envA) e2 2 None])).
Proof.
  split.
  - intros env e l lastLog Hl Hk He.
    exists (replace_last l (moved_item lastLog e)).
    split; [now apply updater_mousemove|].
    split; [reflexivity|].
    split; [now apply replace_last_length with (x := lastLog)|].
    unfold replace_last. now rewrite removelast_last.
  - intros envA envB e1 e2 l H1 H2 Hm.
    exists (skipn (List.length l - 19) l).
    assert (Hd : dedups e1 = false) by (unfold dedups; now rewrite H1).
    rewrite (updater_new_entry envA e1 l Hm Hd), keep_last_20_snoc.
    unfold appended_item. rewrite H1. simpl.
    split; [reflexivity|].
    rewrite (updater_mousemove envB e2 _ (new_item envA e1));
      [|apply last_log_snoc|exact H1|exact H2].
    now rewrite replace_last_snoc.
Qed.

Lemma mousemove_coalescing_witness :
  setLogs_updater env1 (ev mousemove "Move" 7)
    [new_item env0 (ev key "@key[Up]" 1); new_item env0 (ev mousemove "Move" 5)]
  = Some [new_item env0 (ev key "@key[Up]" 1);
          mkLogItem (fresh_id env0) (ev mousemove "Move" 7) 2 None].
Proof.
  destruct (proj1 mousemove_coalescing env1 (ev mousemove "Move" 7)
              [new_item env0 (ev key "@key[Up]" 1);
               new_item env0 (ev mousemove "Move" 5)]
              (new_item env0 (ev mousemove "Move" 5))
              eq_refl eq_refl eq_refl) as [l' [H [-> _]]].
  exact H.
Defined.

(** ** Key handling *)

(** C6: when the last row is a key event and a key event with the same full
    label arrives, the last row's repeat count grows by one and nothing else
    of it changes (id, label, timestamp, typing mark); the label is not
    extended, whatever the typing mark says; the log keeps its length and
    its other rows. *)
Theorem exact_key_repeat :
  forall env e l lastLog,
    last_log l = Some lastLog ->
    event_type (payload lastLog) = key ->
    event_type e = key ->
    label e = label (payload lastLog) ->
    exists l',
      setLogs_updater env e l = Some l'
      /\ l' = removelast l
              ++ [mkLogItem (id lastLog) (payload lastLog) (count lastLog + 1)
                            (isTypingSequence lastLog)]
      /\ List.length l' = List.length l.
Proof.
  intros env e l lastLog Hl Hk He Hlbl.
  exists (replace_last l (repeated_item lastLog)).
  split; [|split; [reflexivity|now apply replace_last_length with (x := lastLog)]].
  rewrite (updater_key env e l He). unfold key_block.
  now rewrite Hl, Hk, Hlbl, String.eqb_refl.
Qed.

Lemma exact_key_repeat_witness :
  setLogs_updater env1 (ev key "@key[a]" 9) [new_key_item env0 (ev key "@key[a]" 4)]
  = Some [mkLogItem (fresh_id env0) (ev key "@key[a]" 4) 2 (Some true)].
Proof.
  destruct (exact_key_repeat env1 (ev key "@key[a]" 9)
              [new_key_item env0 (ev key "@key[a]" 4)]
              (new_key_item env0 (ev key "@key[a]" 4))
              eq_refl eq_refl eq_refl eq_refl) as [l' [H [-> _]]].
  exact H.
Defined.

(** ** Eviction *)

(** X22: eviction on the new-entry paths.  On a log of exactly 20 rows, an
    event that takes a new-entry path (it does not merge into the last row
    and is not a click or double-click with a non-empty button name)
    removes the oldest row, the head of the log, and nothing else: the
    result is the other 19 rows in their order followed by the new row. *)
Theorem eviction_is_fifo :
  forall env e l,
    List.length l = 20%nat ->
    merges_into_last e l = false ->
    dedups e = false ->
    exists oldest rest,
      l = oldest :: rest
      /\ List.length rest = 19%nat
      /\ setLogs_updater env e l = Some (rest ++ [appended_item env e])
      /\ payload (appended_item env e) = e
      /\ count (appended_item env e) = 1.
Proof.
  intros env e l Hlen Hm Hd.
  destruct l as [|oldest rest]; [discriminate|].
  exists oldest, rest.
  split; [reflexivity|].
  split; [now injection Hlen|].
  split.
  - rewrite (updater_new_entry env e _ Hm Hd).
    now rewrite keep_last_20_full.
  - unfold appended_item. now destruct (EventType_eqb (event_type e) key).
Qed.

Lemma eviction_is_fifo_witness :
  setLogs_updater env0 (ev key "@key[Enter]" 50) (system_log 20)
  = Some (tl (system_log 20) ++ [new_key_item env0 (ev key "@key[Enter]" 50)]).
Proof.
  destruct (eviction_is_fifo env0 (ev key "@key[Enter]" 50) (system_log 20)
              eq_refl eq_refl eq_refl) as [oldest [rest [E [_ [H _]]]]].
  rewrite H, E. reflexivity.
Defined.

(** C5: a click on [[Left]] is not merged into anything, yet on a full log
    of 20 system rows it evicts nothing: the oldest row stays, the click is
    appended and the log has 21 rows, not the 19 remaining rows followed by
    the click. *)
Theorem eviction_skipped_on_click :
  let e := ev click "Click [Left]" 100 in
  List.length (system_log 20) = 20%nat
  /\ merges_into_last e (system_log 20) = false
  /\ setLogs_updater env0 e (system_log 20)
     = Some (system_log 20 ++ [new_item env0 e])
  /\ setLogs_updater env0 e (system_log 20)
     <> Some (tl (system_log 20) ++ [new_item env0 e])
  /\ hd_error (system_log 20 ++ [new_item env0 e]) = hd_error (system_log 20).
Proof.
  intros e. repeat split; try (vm_compute; reflexivity).
  intros H. apply (f_equal (option_map (@List.length LogItem))) in H.
  vm_compute in H. discriminate H.
Qed.

(** ** Capacity *)

(** C1: twenty system events followed by a click on [[Left]] leave 21 rows,
    and so does a double-click in place of the click: the two cleanup blocks
    append without the length test the new-entry paths apply. *)
Theorem click_append_exceeds_capacity :
  feed (system_events 20) [] = Some (system_log 20)
  /\ List.length (system_log 20) = 20%nat
  /\ setLogs_updater env0 (ev click "Click [Left]" 100) (system_log 20)
     = Some (system_log 20 ++ [new_item env0 (ev click "Click [Left]" 100)])
  /\ List.length (system_log 20 ++ [new_item env0 (ev click "Click [Left]" 100)])
     = 21%nat
  /\ setLogs_updater env0 (ev doubleclick "Double [Left]" 100) (system_log 20)
     = Some (system_log 20
             ++ [new_item env0 (ev doubleclick "Double [Left]" 100)]).
Proof. repeat split; vm_compute; reflexivity. Qed.

(** The paths that do test the length: the result never has more than 20
    rows, or more rows than before. *)
Lemma capacity_outside_cleanup env e l :
  dedups e = false ->
  exists l',
    setLogs_updater env e l = Some l'
    /\ (List.length l' <= Nat.max 20 (List.length l))%nat.
Proof.
  intros Hd.
  destruct (merges_into_last e l) eqn:Hm.
  - unfold merges_into_last in Hm.
    destruct (last_log l) as [ll|] eqn:Hl; [|discriminate].
    destruct (EventType_eqb (event_type e) mousemove
              && EventType_eqb (event_type (payload ll)) mousemove) eqn:Hmv.
    + apply andb_true_iff in Hmv as [H1 H2].
      apply EventType_eqb_eq in H1, H2.
      eexists. split; [now apply updater_mousemove with (lastLog := ll)|].
      rewrite (replace_last_length l ll _ Hl). apply Nat.le_max_r.
    + simpl in Hm. apply andb_true_iff in Hm as [Hm Hc].
      apply andb_true_iff in Hm as [H1 H2].
      apply EventType_eqb_eq in H1.
      eexists. split; [now apply updater_key|].
      unfold key_block. rewrite Hl, H2. cbn [andb].
      destruct (String.eqb (label (payload ll)) (label e)).
      * rewrite (replace_last_length l ll _ Hl). apply Nat.le_max_r.
      * simpl in Hc. rewrite Hc. rewrite (replace_last_length l ll _ Hl). apply Nat.le_max_r.
  - eexists. split; [now apply updater_new_entry|].
    etransitivity; [apply keep_last_20_length|apply Nat.le_max_l].
Qed.

(** ** Typing continuation *)

(** The claim that a typed word only grows from a one-character row: when
    the last row is a key event marked as a typing sequence and a key event
    with another full label and a one-character alphanumeric content arrives,
    the continuation is taken only if the last row's bare content is itself
    one alphanumeric character. *)
Definition continuation_needs_single_char_tail : Prop :=
  forall env e l lastLog,
    last_log l = Some lastLog ->
    event_type (payload lastLog) = key ->
    isTypingSequence lastLog = Some true ->
    event_type e = key ->
    label e <> label (payload lastLog) ->
    Label.isTextKey (Label.bare (label e)) = true ->
    setLogs_updater env e l = Some (replace_last l (typed_item lastLog e)) ->
    Label.isTextKey (Label.bare (label (payload lastLog))) = true.

(** The row [ab] of a typed word, and the key [c]. *)
Definition row_ab : LogItem :=
  mkLogItem (fresh_id env0) (ev key "@Key[ab]" 2) 1 (Some true).
Definition key_c : InputEventPayload := ev key "@key[c]" 3.

(** The row [ab] is what typing [a] then [b] leaves on the empty log. *)
Example row_ab_is_typed :
  feed [(env0, ev key "@key[a]" 1); (env1, ev key "@key[b]" 2)] [] = Some [row_ab].
Proof. reflexivity. Qed.

(** C2, refuted as stated: the row [ab] (two characters of bare content)
    takes the key [c] and becomes [abc]. *)
Lemma continuation_on_longer_tail :
  ~ continuation_needs_single_char_tail.
Proof.
  intros H.
  specialize (H env1 key_c [row_ab] row_ab eq_refl eq_refl eq_refl eq_refl).
  assert (Hne : label key_c <> label (payload row_ab)) by discriminate.
  specialize (H Hne eq_refl eq_refl).
  discriminate H.
Qed.

(** C2, amended: when the last row is a key event marked as a typing
    sequence and a key event with another full label and a one-character
    alphanumeric bare content arrives, the continuation is taken whatever
    the length of the last row's bare content: the last row keeps its id,
    kind and mark, its label becomes the tag [@Key[ ]] around the old bare
    content followed by the new character, its timestamp is the event's and
    its repeat count is 1; the other rows are unchanged. *)
Theorem typing_continuation :
  forall env e l lastLog,
    last_log l = Some lastLog ->
    event_type (payload lastLog) = key ->
    isTypingSequence lastLog = Some true ->
    event_type e = key ->
    label e <> label (payload lastLog) ->
    Label.isTextKey (Label.bare (label e)) = true ->
    setLogs_updater env e l
    = Some (removelast l
            ++ [mkLogItem (id lastLog)
                  (mkPayload key
                     ("@Key[" ++ Label.bare (label (payload lastLog))
                              ++ Label.bare (label e) ++ "]")%string
                     (timestamp e))
                  1 (Some true)]).
Proof.
  intros env e l lastLog Hl Hk Ht He Hne Htxt.
  rewrite (updater_key env e l He). unfold key_block.
  rewrite Hl, Hk, Htxt, Ht.
  assert (Hneq : String.eqb (label (payload lastLog)) (label e) = false).
  { apply String.eqb_neq. congruence. }
  rewrite Hneq. simpl. unfold replace_last, typed_item.
  now rewrite Hk, Ht.
Qed.

Lemma typing_continuation_witness :
  setLogs_updater env1 key_c [row_ab]
  = Some [mkLogItem (fresh_id env0) (ev key "@Key[abc]" 3) 1 (Some true)].
Proof.
  assert (Hne : label key_c <> label (payload row_ab)) by discriminate.
  exact (typing_continuation env1 key_c [row_ab] row_ab
           eq_refl eq_refl eq_refl eq_refl Hne eq_refl).
Defined.

(** The continuation step, as the key block takes it. *)
Lemma continuation_step env e l lastLog :
  last_log l = Some lastLog ->
  event_type (payload lastLog) = key ->
  isTypingSequence lastLog = Some true ->
  event_type e = key ->
  label e <> label (payload lastLog) ->
  Label.isTextKey (Label.bare (label e)) = true ->
  setLogs_updater env e l
  = Some (removelast l
          ++ [mkLogItem (id lastLog)
                (mkPayload key
                   ("@Key[" ++ Label.bare (label (payload lastLog))
                            ++ Label.bare (label e) ++ "]")%string
                   (timestamp e))
                1 (Some true)]).
Proof.
  intros Hl Hk Ht He Hne Htxt.
  rewrite (updater_key env e l He). unfold key_block.
  rewrite Hl, Hk, Htxt, Ht.
  assert (Hneq : String.eqb (label (payload lastLog)) (label e) = false).
  { apply String.eqb_neq. congruence. }
  rewrite Hneq. simpl. unfold replace_last, typed_item.
  now rewrite Hk, Ht.
Qed.

(** C3: on a log whose last row does not absorb the first of them, three
    key events whose bare contents are the single alphanumeric characters
    [a], [b], [c] (the first two with distinct full labels) add exactly one
    row at the end; its displayed content is the three characters in order,
    its repeat count is 1 and its timestamp is the third event's. *)
Theorem typing_assembly :
  forall envA envB envC e1 e2 e3 a b c l,
    event_type e1 = key -> event_type e2 = key -> event_type e3 = key ->
    Label.bare (label e1) = String a "" ->
    Label.bare (label e2) = String b "" ->
    Label.bare (label e3) = String c "" ->
    Label.alnum a = true -> Label.alnum b = true -> Label.alnum c = true ->
    label e1 <> label e2 ->
    merges_into_last e1 l = false ->
    exists older row,
      feed [(envA, e1); (envB, e2); (envC, e3)] l = Some (older ++ [row])
      /\ older = skipn (List.length l - 19) l
      /\ getDisplayLabel (payload row) = String a (String b (String c ""))
      /\ count row = 1
      /\ timestamp (payload row) = timestamp e3
      /\ id row = fresh_id envA.
Proof.
  intros envA envB envC e1 e2 e3 a b c l K1 K2 K3 B1 B2 B3 A1 A2 A3 Hne Hm.
  exists (skipn (List.length l - 19) l).
  exists (mkLogItem (fresh_id envA)
            (mkPayload key ("@Key[" ++ String a (String b (String c "]")))%string
                       (timestamp e3))
            1 (Some true)).
  split; [|repeat split; reflexivity].
  assert (Hd : dedups e1 = false) by (unfold dedups; now rewrite K1).
  unfold feed.
  rewrite (updater_new_entry envA e1 l Hm Hd), keep_last_20_snoc.
  unfold appended_item. rewrite K1. cbn [EventType_eqb].
  (* second key: continuation of the one-character row *)
  rewrite (continuation_step envB e2 _ (new_key_item envA e1));
    [ | apply last_log_snoc | exact K1
      | unfold new_key_item; simpl; now rewrite B1; simpl; rewrite A1
      | exact K2 | simpl; congruence | now rewrite B2 ].
  rewrite removelast_last. simpl id. simpl payload.
  rewrite B1, B2.
  (* third key: continuation of the two-character row *)
  set (row2 := mkLogItem (fresh_id envA)
                 (mkPayload key ("@Key[" ++ String a "" ++ String b "" ++ "]")%string
                            (timestamp e2)) 1 (Some true)).
  rewrite (continuation_step envC e3 _ row2);
    [ | apply last_log_snoc | reflexivity | reflexivity | exact K3
      | | now rewrite B3 ].
  - rewrite removelast_last. subst row2. simpl id. simpl payload. simpl label.
    rewrite B3. reflexivity.
  - intros E. subst row2. apply (f_equal Label.bare) in E.
    rewrite B3 in E. discriminate E.
Qed.

Lemma typing_assembly_witness :
  exists older row,
    feed [(env0, ev key "@key[a]" 1); (env1, ev key "@key[b]" 2);
          (env1, ev key "@key[c]" 3)] []
    = Some (older ++ [row])
    /\ older = []
    /\ getDisplayLabel (payload row) = "abc"
    /\ count row = 1
    /\ timestamp (payload row) = 3
    /\ id row = fresh_id env0.
Proof.
  assert (Hne : label (ev key "@key[a]" 1) <> label (ev key "@key[b]" 2))
    by discriminate.
  exact (typing_assembly env0 env1 env1 (ev key "@key[a]" 1)
           (ev key "@key[b]" 2) (ev key "@key[c]" 3) "a" "b" "c" []
           eq_refl eq_refl eq_refl eq_refl eq_refl eq_refl
           eq_refl eq_refl eq_refl Hne eq_refl).
Defined.

(** ** Click and double-click cleanup *)

Lemma updater_cleanup env e l btnName :
  event_type e = click \/ event_type e = doubleclick ->
  Label.first_group (label e) = Some btnName ->
  btnName <> ""%string ->
  setLogs_updater env e l
  = match RegExp.make ("\[" ++ btnName ++ "\]")%string with
    | Some clickPattern =>
        Some (filter (cleanup_keeps
                        (if EventType_eqb (event_type e) click
                         then [mousedown; mouseup]
                         else [click; mousedown; mouseup])
                        clickPattern e) l
              ++ [new_item env e])
    | None => None
    end.
Proof.
  intros He Hg Hb.
  apply String.eqb_neq in Hb.
  unfold setLogs_updater, mousemove_block, cleanup_block.
  rewrite Hg, Hb.
  destruct He as [He|He]; rewrite He; simpl;
    destruct (last_log l); reflexivity.
Qed.

(** Without a truthy button name a click or double-click is a normal add. *)
Lemma updater_no_button env e l :
  event_type e = click \/ event_type e = doubleclick ->
  has_button (label e) = false ->
  setLogs_updater env e l = Some (normal_add env e l).
Proof.
  intros He Hb.
  assert (Hm : merges_into_last e l = false).
  { unfold merges_into_last. destruct (last_log l); [|reflexivity].
    destruct He as [He|He]; now rewrite He. }
  assert (Hd : dedups e = false).
  { unfold dedups. rewrite Hb. apply andb_false_r. }
  rewrite (updater_new_entry env e l Hm Hd).
  unfold normal_add, appended_item.
  destruct He as [He|He]; now rewrite He.
Qed.

Lemma contains_cons (needle s : string) (c : ascii) :
  Label.contains needle s = true -> Label.contains needle (String c s) = true.
Proof.
  intros H. change (Label.contains needle (String c s))
    with (String.prefix needle (String c s) || Label.contains needle s).
  rewrite H. apply orb_true_r.
Qed.

Lemma group_at_empty (s : string) :
  Label.group_at s = Some ""%string -> exists s', s = String "]" s'.
Proof.
  destruct s as [|d s']; [discriminate|]. simpl.
  destruct (Ascii.eqb d "]") eqn:Ed.
  - apply Ascii.eqb_eq in Ed. subst d. now exists s'.
  - destruct (Label.is_line_terminator d); [discriminate|].
    destruct (Label.group_at s'); discriminate.
Qed.

Lemma first_group_empty_contains (s : string) :
  Label.first_group s = Some ""%string -> Label.contains "[]" s = true.
Proof.
  induction s as [|c s IH]; [discriminate|].
  simpl Label.first_group.
  destruct (Ascii.eqb c "[") eqn:Ec.
  - destruct (Label.group_at s) as [g|] eqn:G.
    + intros [= ->]. apply Ascii.eqb_eq in Ec. subst c.
      destruct (group_at_empty s G) as [s' ->].
      simpl. now destruct s'.
    + intros H. now apply contains_cons, IH.
  - intros H. now apply contains_cons, IH.
Qed.

(** C10: a click or double-click whose first bracketed group is empty is
    not de-duplicated: the event is appended by the default path (repeat
    count 1, no typing mark, at most the last 20 rows kept), every row of a
    log with room is retained unchanged, and the result is the one obtained
    for a label with no bracketed group at all. *)
Theorem empty_button_is_normal_add :
  forall env e l,
    event_type e = click \/ event_type e = doubleclick ->
    Label.first_group (label e) = Some ""%string ->
    Label.contains "[]" (label e) = true
    /\ setLogs_updater env e l = Some (normal_add env e l)
    /\ normal_add env e l
       = skipn (List.length l - 19) l ++ [mkLogItem (fresh_id env) e 1 None]
    /\ (List.length (normal_add env e l) <= 20)%nat
    /\ ((List.length l < 20)%nat ->
        normal_add env e l = l ++ [mkLogItem (fresh_id env) e 1 None])
    /\ (forall lbl,
          Label.first_group lbl = None ->
          let e' := mkPayload (event_type e) lbl (timestamp e) in
          setLogs_updater env e' l = Some (normal_add env e' l)).
Proof.
  intros env e l He Hg.
  split; [|split; [|split; [|split; [|split]]]].
  - now apply first_group_empty_contains.
  - apply updater_no_button; [exact He|].
    unfold has_button. now rewrite Hg.
  - apply keep_last_20_snoc.
  - apply keep_last_20_length.
  - apply keep_last_20_room.
  - intros lbl Hl e'. apply updater_no_button; [exact He|].
    unfold has_button. simpl. now rewrite Hl.
Qed.

Lemma empty_button_is_normal_add_witness :
  setLogs_updater env1 (ev click "Click []" 50)
    [new_item env0 (ev mousedown "Down []" 0); new_item env0 (ev mouseup "Up []" 10)]
  = Some [new_item env0 (ev mousedown "Down []" 0);
          new_item env0 (ev mouseup "Up []" 10);
          new_item env1 (ev click "Click []" 50)].
Proof.
  exact (proj1 (proj2 (empty_button_is_normal_add env1 (ev click "Click []" 50)
                  [new_item env0 (ev mousedown "Down []" 0);
                   new_item env0 (ev mouseup "Up []" 10)]
                  (or_introl eq_refl) eq_refl))).
Defined.

(** *** Button names without pattern syntax *)

Module Literal.

Import RegExp.

(** The pattern that matches the characters of [s] and nothing else. *)
Definition exactly (s : string) : pattern :=
  map (fun c => (Lit c, Once)) (list_ascii_of_string s).

Lemma not_syntax (c x : ascii) :
  syntax_char c = false -> syntax_char x = true -> Ascii.eqb c x = false.
Proof.
  intros Hc Hx. destruct (Ascii.eqb c x) eqn:E; [|reflexivity].
  apply Ascii.eqb_eq in E. congruence.
Qed.

Lemma tokens_literal (b rest : string) :
  literal_name b = true ->
  tokens (b ++ rest)
  = option_map (app (map (fun c => TAtom (Lit c)) (list_ascii_of_string b)))
               (tokens rest).
Proof.
  induction b as [|c b IH]; intros H.
  - simpl. now destruct (tokens rest).
  - unfold literal_name in H. simpl in H.
    apply andb_true_iff in H as [Hc Hb]. apply negb_true_iff in Hc.
    change (String c b ++ rest)%string with (String c (b ++ rest)%string).
    cbn [tokens].
    rewrite (not_syntax c "\" Hc eq_refl), (not_syntax c "." Hc eq_refl),
      (not_syntax c "*" Hc eq_refl), (not_syntax c "+" Hc eq_refl),
      (not_syntax c "?" Hc eq_refl), Hc.
    rewrite (IH Hb). now destruct (tokens rest).
Qed.

Lemma pieces_atoms (cs : list ascii) :
  pieces (map (fun c => TAtom (Lit c)) cs)
  = Some (map (fun c => (Lit c, Once)) cs).
Proof.
  induction cs as [|c cs IH]; [reflexivity|].
  cbn [map pieces]. destruct cs as [|d cs]; [reflexivity|].
  cbn [map] in IH |- *. now rewrite IH.
Qed.

Lemma list_ascii_app (s t : string) :
  list_ascii_of_string (s ++ t)
  = (list_ascii_of_string s ++ list_ascii_of_string t)%list.
Proof. induction s as [|c s IH]; simpl; [reflexivity|now rewrite IH]. Qed.

(** [new RegExp(`\\[${btnName}\\]`)] for a name without pattern syntax. *)
Lemma make_literal (b : string) :
  literal_name b = true ->
  make ("\[" ++ b ++ "\]") = Some (exactly ("[" ++ b ++ "]")).
Proof.
  intros H. unfold make, exactly.
  change ("\[" ++ b ++ "\]")%string
    with (String "\" (String "[" (b ++ "\]")%string)).
  cbn [tokens]. simpl (Ascii.eqb "\" "\"). cbv iota.
  rewrite (tokens_literal b "\]" H).
  simpl (tokens "\]"). cbn [option_map].
  replace (identity_escape "[") with true by reflexivity.
  replace (TAtom (Lit "[")
           :: (map (fun c => TAtom (Lit c)) (list_ascii_of_string b)
               ++ [TAtom (Lit "]")])%list)
    with (map (fun c => TAtom (Lit c))
            ("["%char :: list_ascii_of_string b ++ ["]"%char])%list)
    by (simpl; now rewrite map_app).
  rewrite pieces_atoms. simpl. now rewrite list_ascii_app.
Qed.

Lemma match_here_exactly (n s : string) :
  match_here (exactly n) s = String.prefix n s.
Proof.
  revert s. induction n as [|c n IH]; intros s.
  - now destruct s.
  - destruct s as [|d s]; [reflexivity|].
    change (match_here (exactly (String c n)) (String d s))
      with (Ascii.eqb c d && match_here (exactly n) s).
    rewrite IH. simpl. destruct (ascii_dec c d) as [->|Hn].
    + now rewrite Ascii.eqb_refl.
    + apply Ascii.eqb_neq in Hn. now rewrite Hn.
Qed.

(** [label.match(pattern)] is then the search for the bracketed name. *)
Lemma test_exactly (n s : string) :
  test (exactly n) s = Label.contains n s.
Proof.
  induction s as [|d s IH]; simpl.
  - now rewrite match_here_exactly.
  - now rewrite match_here_exactly, IH.
Qed.

End Literal.

(** The row is dropped by a cleanup for the button [btnName] that looks at
    the kinds [kinds]: not older than 500 ms, of one of the kinds, and its
    label contains the bracketed name. *)
Definition dropped_by (kinds : list EventType) (btnName : string)
    (newEvent : InputEventPayload) (log : LogItem) : bool :=
  (timestamp newEvent - timestamp (payload log) <=? 500)
  && existsb (EventType_eqb (event_type (payload log))) kinds
  && Label.contains ("[" ++ btnName ++ "]") (label (payload log)).

(** Click and double-click cleanup for a button name without pattern
    syntax: exactly the rows [dropped_by] describes go, then the event is
    appended (no length test). *)
Lemma cleanup_literal env e l btnName :
  event_type e = click \/ event_type e = doubleclick ->
  Label.first_group (label e) = Some btnName ->
  btnName <> ""%string ->
  literal_name btnName = true ->
  setLogs_updater env e l
  = Some (filter (fun log =>
                    negb (dropped_by
                            (if EventType_eqb (event_type e) click
                             then [mousedown; mouseup]
                             else [click; mousedown; mouseup])
                            btnName e log)) l
          ++ [new_item env e]).
Proof.
  intros He Hg Hb Hlit.
  rewrite (updater_cleanup env e l btnName He Hg Hb).
  rewrite (Literal.make_literal btnName Hlit).
  f_equal. f_equal. apply filter_ext. intros log.
  unfold cleanup_keeps, dropped_by.
  rewrite Literal.test_exactly.
  rewrite Z.leb_antisym.
  destruct (500 <? timestamp e - timestamp (payload log)); simpl; [reflexivity|].
  now destruct (existsb _ _ && Label.contains _ _).
Qed.

(** The cleanup of a click never drops a click row, whatever the button
    name. *)
Lemma click_keeps_clicks env e l l' row :
  event_type e = click ->
  has_button (label e) = true ->
  setLogs_updater env e l = Some l' ->
  In row l -> event_type (payload row) = click -> In row l'.
Proof.
  intros He Hb Hu Hin Hrow.
  unfold has_button in Hb.
  destruct (Label.first_group (label e)) as [b|] eqn:Hg; [|discriminate].
  apply negb_true_iff, String.eqb_neq in Hb.
  rewrite (updater_cleanup env e l b (or_introl He) Hg Hb) in Hu.
  destruct (RegExp.make _) as [p|]; [|discriminate].
  injection Hu as <-. apply in_or_app. left.
  apply filter_In. split; [exact Hin|].
  unfold cleanup_keeps. rewrite He, Hrow. simpl.
  now destruct (500 <? _).
Qed.

(** Rows and events of the runs below. *)
Definition down_ctrl_left : LogItem := new_item env0 (ev mousedown "Down [Ctrl+Left]" 0).
Definition up_ctrl_left : LogItem := new_item env0 (ev mouseup "Up [Ctrl+Left]" 10).
Definition click_ctrl_left : InputEventPayload := ev click "Click [Ctrl+Left]" 50.
Definition down_L : LogItem := new_item env0 (ev mousedown "Down [L]" 0).
Definition click_dot : InputEventPayload := ev click "Click [.]" 50.
Definition clicked_ctrl_left : LogItem := new_item env0 (ev click "Click [Ctrl+Left]" 0).
Definition dbl_ctrl_left : InputEventPayload := ev doubleclick "Double [Ctrl+Left]" 100.
Definition clicked_L : LogItem := new_item env0 (ev click "Click [L]" 0).
Definition dbl_dot : InputEventPayload := ev doubleclick "Double [.]" 100.

(** C7: the button name is read as pattern syntax.  A click on
    [[Ctrl+Left]] 50 ms after the pointer-down and 40 ms after the
    pointer-up of [[Ctrl+Left]] drops neither row, although both labels
    contain the bracketed name; a click on [[.]] drops the pointer-down of
    [[L]], whose label does not contain [[.]]. *)
Theorem click_cleanup_reads_name_as_pattern :
  Label.first_group (label click_ctrl_left) = Some "Ctrl+Left"%string
  /\ dropped_by [mousedown; mouseup] "Ctrl+Left" click_ctrl_left down_ctrl_left = true
  /\ dropped_by [mousedown; mouseup] "Ctrl+Left" click_ctrl_left up_ctrl_left = true
  /\ setLogs_updater env1 click_ctrl_left [down_ctrl_left; up_ctrl_left]
     = Some [down_ctrl_left; up_ctrl_left; new_item env1 click_ctrl_left]
  /\ Label.first_group (label click_dot) = Some "."%string
  /\ dropped_by [mousedown; mouseup] "." click_dot down_L = false
  /\ setLogs_updater env1 click_dot [down_L] = Some [new_item env1 click_dot].
Proof. repeat split; vm_compute; reflexivity. Qed.

(** C8: the same reading of the button name in the double-click cleanup.
    A double-click on [[Ctrl+Left]] 100 ms after a click on [[Ctrl+Left]]
    keeps the click row; a double-click on [[.]] drops the click row of
    [[L]]. *)
Theorem doubleclick_cleanup_reads_name_as_pattern :
  Label.first_group (label dbl_ctrl_left) = Some "Ctrl+Left"%string
  /\ dropped_by [click; mousedown; mouseup] "Ctrl+Left" dbl_ctrl_left clicked_ctrl_left
     = true
  /\ setLogs_updater env1 dbl_ctrl_left [clicked_ctrl_left]
     = Some [clicked_ctrl_left; new_item env1 dbl_ctrl_left]
  /\ Label.first_group (label dbl_dot) = Some "."%string
  /\ dropped_by [click; mousedown; mouseup] "." dbl_dot clicked_L = false
  /\ setLogs_updater env1 dbl_dot [clicked_L] = Some [new_item env1 dbl_dot].
Proof. repeat split; vm_compute; reflexivity. Qed.

(** The runs of the specification, with the plain name [Left]. *)
Example click_cleanup_inside_window :
  feed [(env0, ev mousedown "Down [Left]" 0); (env0, ev mouseup "Up [Left]" 10);
        (env1, ev click "Click [Left]" 50)] []
  = Some [new_item env1 (ev click "Click [Left]" 50)].
Proof. vm_compute. reflexivity. Qed.

Example click_cleanup_outside_window :
  feed [(env0, ev mousedown "Down [Left]" 0); (env0, ev mouseup "Up [Left]" 10);
        (env1, ev click "Click [Left]" 600)] []
  = Some [new_item env0 (ev mousedown "Down [Left]" 0);
          new_item env0 (ev mouseup "Up [Left]" 10);
          new_item env1 (ev click "Click [Left]" 600)].
Proof. vm_compute. reflexivity. Qed.

Example doubleclick_cleanup_run :
  feed [(env0, ev click "Click [Left]" 0); (env1, ev doubleclick "Double [Left]" 100)] []
  = Some [new_item env1 (ev doubleclick "Double [Left]" 100)].
Proof. vm_compute. reflexivity. Qed.

(** A name that is not a pattern at all: the model has no result. *)
Example unbalanced_name_has_no_pattern :
  RegExp.make "\[(\]" = None
  /\ setLogs_updater env0 (ev click "Click [(]" 0) [] = None.
Proof. split; reflexivity. Qed.

(** ** Any run-time: which block answers *)

Section AnyRuntime.

Variable R : Runtime.

Lemma updater_with_mousemove env e l lastLog :
  last_log l = Some lastLog ->
  event_type (payload lastLog) = mousemove ->
  event_type e = mousemove ->
  setLogs_updater_with R env e l = Some (replace_last l (moved_item lastLog e)).
Proof.
  intros Hl Hk He. unfold setLogs_updater_with, mousemove_block.
  now rewrite Hl, Hk, He.
Qed.

Lemma updater_with_key env e l :
  event_type e = key ->
  setLogs_updater_with R env e l = Some (key_block_with R env e l).
Proof.
  intros He. unfold setLogs_updater_with, mousemove_block.
  rewrite He. simpl. now destruct (last_log l).
Qed.

Lemma key_block_with_new_entry env e l :
  event_type e = key ->
  merges_into_last e l = false ->
  key_block_with R env e l = keep_last_20 (l ++ [appended_with (id_of R env) e]).
Proof.
  unfold merges_into_last, key_block_with, appended_with. intros He.
  rewrite He. cbn [EventType_eqb].
  destruct (last_log l) as [ll|]; [|reflexivity].
  destruct (EventType_eqb (event_type (payload ll)) key),
    (String.eqb (label (payload ll)) (label e)),
    (Label.isTextKey (Label.bare (label e))),
    (truthy (isTypingSequence ll)); simpl; intros H;
    (reflexivity || discriminate H).
Qed.

Lemma cleanup_block_with_continue kinds env e l :
  has_button (label e) = false -> cleanup_block_with R kinds env e l = Continue.
Proof.
  unfold has_button, cleanup_block_with.
  destruct (Label.first_group (label e)) as [b|]; [|reflexivity].
  intros H. apply negb_false_iff in H. now rewrite H.
Qed.

Lemma updater_with_new_entry env e l :
  merges_into_last e l = false ->
  dedups e = false ->
  setLogs_updater_with R env e l
  = Some (keep_last_20 (l ++ [appended_with (id_of R env) e])).
Proof.
  intros Hm Hd. unfold setLogs_updater_with.
  rewrite (mousemove_block_continue e l Hm). simpl.
  destruct (EventType_eqb (event_type e) key) eqn:Hk.
  - simpl. apply EventType_eqb_eq in Hk.
    now rewrite (key_block_with_new_entry env e l Hk Hm).
  - simpl. unfold dedups in Hd. unfold appended_with. rewrite Hk.
    destruct (EventType_eqb (event_type e) click) eqn:Hc;
      destruct (EventType_eqb (event_type e) doubleclick) eqn:Hdc;
      simpl in Hd |- *;
      repeat rewrite cleanup_block_with_continue by exact Hd;
      reflexivity.
Qed.

(** The kinds a cleanup looks at: [['mousedown', 'mouseup']] for a click,
    [['click', 'mousedown', 'mouseup']] for a double-click. *)
Definition cleanup_kinds (e : InputEventPayload) : list EventType :=
  if EventType_eqb (event_type e) click
  then [mousedown; mouseup]
  else [click; mousedown; mouseup].

Lemma dedups_inv e :
  dedups e = true ->
  (event_type e = click \/ event_type e = doubleclick)
  /\ exists btnName,
       Label.first_group (label e) = Some btnName /\ btnName <> ""%string.
Proof.
  unfold dedups, has_button. intros Hd.
  apply andb_true_iff in Hd as [Hk Hb]. split.
  - apply orb_true_iff in Hk as [Hk|Hk]; apply EventType_eqb_eq in Hk; tauto.
  - destruct (Label.first_group (label e)) as [b|]; [|discriminate].
    exists b. split; [reflexivity|]. now apply negb_true_iff, String.eqb_neq in Hb.
Qed.

Lemma updater_with_cleanup env e l btnName :
  event_type e = click \/ event_type e = doubleclick ->
  Label.first_group (label e) = Some btnName ->
  btnName <> ""%string ->
  setLogs_updater_with R env e l
  = match RegExp_new R ("\[" ++ btnName ++ "\]")%string with
    | Some matches =>
        Some (filter (cleanup_keeps_with (cleanup_kinds e) matches e) l
              ++ [mkLogItem (id_of R env) e 1 None])
    | None => None
    end.
Proof.
  intros He Hg Hb.
  apply String.eqb_neq in Hb.
  unfold setLogs_updater_with, mousemove_block, cleanup_block_with, cleanup_kinds.
  rewrite Hg, Hb.
  destruct He as [He|He]; rewrite He; simpl;
    destruct (last_log l); reflexivity.
Qed.


End AnyRuntime.

(** The definitions of the first part are the instance [model_runtime]. *)
Lemma updater_is_model_instance env e l :
  setLogs_updater_with model_runtime env e l = setLogs_updater env e l.
Proof.
  unfold setLogs_updater_with, setLogs_updater.
  unfold key_block_with, key_block, cleanup_block_with, cleanup_block,
    normal_add, new_key_item, new_item, id_of, fresh_id. simpl.
  destruct (mousemove_block e l); [reflexivity|]. simpl.
  destruct (EventType_eqb (event_type e) key); [reflexivity|]. simpl.
  destruct (Label.first_group (label e)) as [b|]; [|reflexivity].
  destruct (String.eqb b ""); [reflexivity|].
  destruct (RegExp.make _) as [p|]; reflexivity.
Qed.

Lemma feed_is_model_instance evs :
  forall l, feed_with model_runtime evs l = feed evs l.
Proof.
  induction evs as [|[env e] evs IH]; intros l; [reflexivity|].
  cbn [feed_with feed]. rewrite updater_is_model_instance.
  destruct (setLogs_updater env e l); [apply IH|reflexivity].
Qed.

(** ** Determinism *)

(** While the settings are open the event is dropped. *)
Lemma paused_drops_event env e l : on_input_event env true e l = Some l.
Proof. reflexivity. Qed.





(** ** How one update changes the log *)

(** [l1] is [l2] with some elements left out, the order kept. *)
Inductive subseq {A : Type} : list A -> list A -> Prop :=
| subseq_nil : subseq [] []
| subseq_drop x l1 l2 : subseq l1 l2 -> subseq l1 (x :: l2)
| subseq_keep x l1 l2 : subseq l1 l2 -> subseq (x :: l1) (x :: l2).

Section Subseq.

Context {A : Type}.

Lemma subseq_refl (l : list A) : subseq l l.
Proof. induction l; constructor; assumption. Qed.

Lemma subseq_filter (f : A -> bool) (l : list A) : subseq (filter f l) l.
Proof.
  induction l as [|x l IH]; simpl; [constructor|].
  destruct (f x); constructor; exact IH.
Qed.

Lemma subseq_skipn (n : nat) (l : list A) : subseq (skipn n l) l.
Proof.
  revert l. induction n as [|n IH]; intros l; [apply subseq_refl|].
  destruct l; simpl; [constructor|]. constructor. apply IH.
Qed.

Lemma subseq_removelast (l : list A) : subseq (removelast l) l.
Proof.
  induction l as [|x l IH]; [constructor|].
  destruct l as [|y l]; [repeat constructor|].
  change (removelast (x :: y :: l)) with (x :: removelast (y :: l)).
  now constructor.
Qed.

Lemma subseq_In (l1 l2 : list A) (x : A) :
  subseq l1 l2 -> In x l1 -> In x l2.
Proof.
  induction 1 as [|y l1 l2 _ IH|y l1 l2 _ IH]; simpl; [tauto| |]; intuition.
Qed.

Lemma subseq_Forall (P : A -> Prop) (l1 l2 : list A) :
  subseq l1 l2 -> Forall P l2 -> Forall P l1.
Proof.
  intros Hs H. apply Forall_forall. intros x Hx.
  rewrite Forall_forall in H. apply H. now apply subseq_In with (l1 := l1).
Qed.

Lemma subseq_length (l1 l2 : list A) :
  subseq l1 l2 -> (List.length l1 <= List.length l2)%nat.
Proof. induction 1; simpl; lia. Qed.


Lemma subseq_sorted (R : A -> A -> Prop) (l1 l2 : list A) :
  subseq l1 l2 -> StronglySorted R l2 -> StronglySorted R l1.
Proof.
  induction 1 as [|y l1 l2 Hs IH|y l1 l2 Hs IH]; intros H.
  - constructor.
  - inversion H; subst. now apply IH.
  - inversion H; subst. constructor; [now apply IH|].
    now apply subseq_Forall with (l2 := l2).
Qed.

Lemma sorted_snoc (R : A -> A -> Prop) (l : list A) (x : A) :
  StronglySorted R l -> Forall (fun y => R y x) l -> StronglySorted R (l ++ [x]).
Proof.
  induction 1 as [|y l Hs IH Hy]; intros H; simpl.
  - repeat constructor.
  - inversion H; subst. constructor; [now apply IH|].
    apply Forall_app. split; [exact Hy|]. now repeat constructor.
Qed.

Lemma sorted_snoc_inv (R : A -> A -> Prop) (l : list A) (x : A) :
  StronglySorted R (l ++ [x]) -> Forall (fun y => R y x) l.
Proof.
  induction l as [|y l IH]; simpl; intros H; [constructor|].
  inversion H; subst. constructor; [|now apply IH].
  rewrite Forall_forall in H3. apply H3, in_or_app. right. now left.
Qed.

End Subseq.

(** The rows an update leaves in front of the last one are rows of the old
    log, in their order; the last one is described by [last_row]. *)
Inductive last_row (i : Q) (e : InputEventPayload) (l : list LogItem)
    : LogItem -> Prop :=
| last_moved ll :
    last_log l = Some ll ->
    event_type e = mousemove -> event_type (payload ll) = mousemove ->
    last_row i e l (moved_item ll e)
| last_repeated ll :
    last_log l = Some ll ->
    event_type e = key -> event_type (payload ll) = key ->
    label (payload ll) = label e ->
    last_row i e l (repeated_item ll)
| last_typed ll :
    last_log l = Some ll ->
    event_type e = key -> event_type (payload ll) = key ->
    Label.isTextKey (Label.bare (label e)) = true ->
    isTypingSequence ll = Some true ->
    last_row i e l (typed_item ll e)
| last_appended :
    last_row i e l (appended_with i e).

Lemma updater_cases R env e l l' :
  setLogs_updater_with R env e l = Some l' ->
  exists older row,
    l' = older ++ [row]
    /\ subseq older l
    /\ last_row (id_of R env) e l row
    /\ (row = appended_with (id_of R env) e \/ older = removelast l).
Proof.
  intros Hu.
  destruct (merges_into_last e l) eqn:Hm.
  - unfold merges_into_last in Hm.
    destruct (last_log l) as [ll|] eqn:Hl; [|discriminate].
    exists (removelast l).
    destruct (EventType_eqb (event_type e) mousemove
              && EventType_eqb (event_type (payload ll)) mousemove) eqn:Hmv.
    + apply andb_true_iff in Hmv as [H1 H2].
      apply EventType_eqb_eq in H1, H2.
      rewrite (updater_with_mousemove R env e l ll Hl H2 H1) in Hu.
      injection Hu as <-. exists (moved_item ll e).
      split; [reflexivity|]. split; [apply subseq_removelast|].
      split; [now constructor|now right].
    + simpl in Hm. apply andb_true_iff in Hm as [Hm Hc].
      apply andb_true_iff in Hm as [H1 H2].
      apply EventType_eqb_eq in H1. pose proof H2 as H2'.
      apply EventType_eqb_eq in H2'.
      rewrite (updater_with_key R env e l H1) in Hu. unfold key_block_with in Hu.
      rewrite Hl, H2 in Hu. cbn [andb] in Hu.
      destruct (String.eqb (label (payload ll)) (label e)) eqn:Heq.
      * injection Hu as <-. exists (repeated_item ll).
        split; [reflexivity|]. split; [apply subseq_removelast|].
        apply String.eqb_eq in Heq.
        split; [now constructor|now right].
      * simpl in Hc. rewrite Hc in Hu. injection Hu as <-.
        apply andb_true_iff in Hc as [Hc1 Hc2].
        exists (typed_item ll e).
        split; [reflexivity|]. split; [apply subseq_removelast|].
        split; [|now right]. apply last_typed; try assumption.
        destruct (isTypingSequence ll) as [[|]|]; (reflexivity || discriminate).
  - destruct (dedups e) eqn:Hd.
    + destruct (dedups_inv e Hd) as [He [b [Hg Hb]]].
      rewrite (updater_with_cleanup R env e l b He Hg Hb) in Hu.
      destruct (RegExp_new R _) as [m|]; [|discriminate].
      injection Hu as <-.
      eexists. exists (appended_with (id_of R env) e).
      assert (Ha : appended_with (id_of R env) e = mkLogItem (id_of R env) e 1 None).
      { unfold appended_with. destruct He as [He|He]; now rewrite He. }
      split; [now rewrite Ha|]. split; [apply subseq_filter|].
      split; [constructor|now left].
    + rewrite (updater_with_new_entry R env e l Hm Hd), keep_last_20_snoc in Hu.
      injection Hu as <-.
      exists (skipn (List.length l - 19) l), (appended_with (id_of R env) e).
      split; [reflexivity|]. split; [apply subseq_skipn|].
      split; [constructor|now left].
Qed.

Lemma last_log_In (l : list LogItem) (x : LogItem) :
  last_log l = Some x -> In x l.
Proof.
  intros H. rewrite (last_log_split l x H). apply in_or_app. right. now left.
Qed.

Lemma appended_with_payload i e : payload (appended_with i e) = e.
Proof. unfold appended_with. now destruct (EventType_eqb (event_type e) key). Qed.

Lemma appended_with_count i e : count (appended_with i e) = 1.
Proof. unfold appended_with. now destruct (EventType_eqb (event_type e) key). Qed.


Lemma last_row_kind i e l row :
  last_row i e l row -> event_type (payload row) = event_type e.
Proof.
  destruct 1; simpl; try congruence. now rewrite appended_with_payload.
Qed.

(** X1: an update only works at the end of the log, whatever the run-time's
    regular expressions and number addition.  Whenever the update returns a
    log, that log is not empty; its last row has the kind of the event; the
    rows before it are rows of the old log, unchanged and in their old
    order; the log has grown by at most one row. *)
Theorem update_touches_only_the_end :
  forall (R : Runtime) env e l l',
    setLogs_updater_with R env e l = Some l' ->
    exists older row,
      l' = older ++ [row]
      /\ subseq older l
      /\ event_type (payload row) = event_type e
      /\ (List.length l' <= List.length l + 1)%nat.
Proof.
  intros R env e l l' Hu.
  destruct (updater_cases R env e l l' Hu) as [older [row [-> [Hs [Hr _]]]]].
  exists older, row. repeat split; try assumption.
  - now apply last_row_kind with (i := id_of R env) (l := l).
  - rewrite length_app. simpl. pose proof (subseq_length _ _ Hs). lia.
Qed.

Lemma update_touches_only_the_end_witness :
  exists older row,
    [new_item env0 (ev system "Sleep" 1); new_item env1 (ev click "Click [Left]" 50)]
    = older ++ [row]
    /\ subseq older [new_item env0 (ev system "Sleep" 1);
                     new_item env0 (ev mousedown "Down [Left]" 20)]
    /\ event_type (payload row) = click
    /\ (2 <= 2 + 1)%nat.
Proof.
  exact (update_touches_only_the_end model_runtime env1 (ev click "Click [Left]" 50)
           [new_item env0 (ev system "Sleep" 1);
            new_item env0 (ev mousedown "Down [Left]" 20)]
           _ eq_refl).
Defined.

(** *** Repeat counts *)

Lemma count_step R env e l l' :
  Forall (fun row => 1 <= count row) l ->
  setLogs_updater_with R env e l = Some l' ->
  Forall (fun row => 1 <= count row) l'.
Proof.
  intros Hl Hu.
  destruct (updater_cases R env e l l' Hu) as [older [row [-> [Hs [Hr _]]]]].
  apply Forall_app. split; [now apply subseq_Forall with (l2 := l)|].
  constructor; [|constructor].
  rewrite Forall_forall in Hl.
  destruct Hr as [ll H|ll H|ll H|]; simpl;
    try (apply last_log_In, Hl in H; lia); try lia.
  now rewrite appended_with_count.
Qed.

(** X2: every row of a log has a repeat count of at least 1, after any
    sequence of events that returns a log, applied to a log whose rows have
    (the empty log for one), whatever the run-time. *)
Theorem counts_stay_positive :
  forall (R : Runtime) evs l l',
    Forall (fun row => 1 <= count row) l ->
    feed_with R evs l = Some l' ->
    Forall (fun row => 1 <= count row) l'.
Proof.
  intros R. induction evs as [|[env e] evs IH]; intros l l' Hl Hf; simpl in Hf.
  - now injection Hf as <-.
  - destruct (setLogs_updater_with R env e l) as [l1|] eqn:Hu; [|discriminate].
    apply (IH l1 l'); [|exact Hf]. now apply count_step with (R := R) (env := env) (e := e) (l := l).
Qed.

Lemma counts_stay_positive_witness :
  Forall (fun row => 1 <= count row)
    [mkLogItem (fresh_id env0) (ev key "@key[Up]" 1) 2 (Some false);
     mkLogItem (fresh_id env1) (ev mousemove "Move" 4) 2 None].
Proof.
  exact (counts_stay_positive model_runtime
           [(env0, ev key "@key[Up]" 1); (env0, ev key "@key[Up]" 2);
            (env1, ev mousemove "Move" 3); (env1, ev mousemove "Move" 4)]
           [] _ (Forall_nil _) eq_refl).
Defined.

(** *** Ids *)

Section SubseqA.

Context {A : Type} (eqA : A -> A -> Prop).



End SubseqA.




(** *** Timestamps *)

Definition not_later (a b : LogItem) : Prop :=
  timestamp (payload a) <= timestamp (payload b).

(** X4: the log stays in timestamp order, whatever the run-time.  If the
    rows are ordered by timestamp and none is later than the incoming
    event, the same holds of the log the update returns. *)
Theorem timestamps_stay_ordered :
  forall (R : Runtime) env e l l',
    StronglySorted not_later l ->
    Forall (fun row => timestamp (payload row) <= timestamp e) l ->
    setLogs_updater_with R env e l = Some l' ->
    StronglySorted not_later l'
    /\ Forall (fun row => timestamp (payload row) <= timestamp e) l'.
Proof.
  intros R env e l l' Hs Hb Hu.
  destruct (updater_cases R env e l l' Hu) as [older [row [-> [Hsub [Hr Hd]]]]].
  assert (Hob : Forall (fun r => timestamp (payload r) <= timestamp e) older)
    by now apply subseq_Forall with (l2 := l).
  assert (Hnow : timestamp (payload row) = timestamp e ->
                 StronglySorted not_later (older ++ [row])
                 /\ Forall (fun r => timestamp (payload r) <= timestamp e)
                           (older ++ [row])).
  { intros Ht. split.
    - apply sorted_snoc; [now apply subseq_sorted with (l2 := l)|].
      unfold not_later. rewrite Ht. exact Hob.
    - apply Forall_app. split; [exact Hob|]. repeat constructor. lia. }
  destruct Hr as [ll Hl|ll Hl|ll Hl|]; try (apply Hnow; reflexivity).
  - (* exact repeat: the row keeps its timestamp *)
    destruct Hd as [Hd| ->].
    + apply Hnow. rewrite Hd. now rewrite appended_with_payload.
    + pose proof Hs as Hs'. rewrite (last_log_split l ll Hl) in Hs'.
      split.
      * apply sorted_snoc; [now apply subseq_sorted with (l2 := l)|].
        apply (sorted_snoc_inv not_later) in Hs'. exact Hs'.
      * apply Forall_app. split; [exact Hob|]. repeat constructor. simpl.
        rewrite Forall_forall in Hb. now apply Hb, last_log_In.
  - apply Hnow. now rewrite appended_with_payload.
Qed.

Lemma timestamps_stay_ordered_witness :
  StronglySorted not_later
    [new_item env0 (ev system "Sleep" 1); new_item env1 (ev click "Click [Left]" 50)]
  /\ Forall (fun row => timestamp (payload row) <= 50)
       [new_item env0 (ev system "Sleep" 1); new_item env1 (ev click "Click [Left]" 50)].
Proof.
  apply (timestamps_stay_ordered model_runtime env1 (ev click "Click [Left]" 50)
           [new_item env0 (ev system "Sleep" 1);
            new_item env0 (ev mousedown "Down [Left]" 20)]).
  - repeat constructor; unfold not_later; simpl; lia.
  - repeat constructor; simpl; lia.
  - reflexivity.
Defined.

(** ** Labels *)

Lemma strip_close_snoc (w : string) :
  Label.strip_close (w ++ "]") = w.
Proof.
  induction w as [|c w IH]; [reflexivity|].
  simpl. rewrite IH. now destruct w.
Qed.

Lemma string_app_assoc (x y z : string) :
  (x ++ y ++ z)%string = ((x ++ y) ++ z)%string.
Proof. induction x as [|c x IH]; simpl; [reflexivity|now rewrite IH]. Qed.

Lemma strip_key_prefix_tag (k e y : ascii) (w : string) :
  Label.eq_ci "k" "K" k = true ->
  Label.eq_ci "e" "E" e = true ->
  Label.eq_ci "y" "Y" y = true ->
  Label.strip_key_prefix (String "@" (String k (String e (String y (String "[" w)))))
  = w.
Proof. intros Hk He Hy. simpl. now rewrite Hk, He, Hy. Qed.

(** X5: the key tag is undone by the engine's stripping, whatever the case
    of its letters and whatever the content: the bare content of
    [@key[content]] is [content].  In particular the label a typing
    continuation writes reads back as the old content followed by the new
    character. *)
Theorem bare_of_wrapped :
  forall k e y content,
    Label.eq_ci "k" "K" k = true ->
    Label.eq_ci "e" "E" e = true ->
    Label.eq_ci "y" "Y" y = true ->
    Label.bare (String "@" (String k (String e (String y (String "[" (content ++ "]"))))))
    = content
    /\ forall lastLog newEvent,
         Label.bare (label (payload (typed_item lastLog newEvent)))
         = (Label.bare (label (payload lastLog))
            ++ Label.bare (label newEvent))%string.
Proof.
  intros k e y content Hk He Hy. split.
  - unfold Label.bare. rewrite strip_key_prefix_tag by assumption.
    apply strip_close_snoc.
  - intros lastLog newEvent. unfold typed_item. simpl label.
    unfold Label.bare at 1.
    change ("@Key[" ++ Label.bare (label (payload lastLog))
                    ++ Label.bare (label newEvent) ++ "]")%string
      with (String "@" (String "K" (String "e" (String "y" (String "["
              (Label.bare (label (payload lastLog))
               ++ Label.bare (label newEvent) ++ "]")%string))))).
    rewrite strip_key_prefix_tag by reflexivity.
    rewrite string_app_assoc. apply strip_close_snoc.
Qed.

Lemma bare_of_wrapped_witness :
  Label.bare "@KEY[Ctrl+]]" = "Ctrl+]"%string.
Proof.
  exact (proj1 (bare_of_wrapped "K" "E" "Y" "Ctrl+]" eq_refl eq_refl eq_refl)).
Defined.

Definition no_open_or_break (s : string) : bool :=
  forallb (fun c => negb (Ascii.eqb c "[" || Label.is_line_terminator c))
          (list_ascii_of_string s).

Lemma after_open_tag (tag rest : string) :
  no_open_or_break tag = true ->
  Label.after_open (tag ++ String "[" rest) = Some rest.
Proof.
  induction tag as [|c tag IH]; intros H; [reflexivity|].
  unfold no_open_or_break in H. simpl in H.
  apply andb_true_iff in H as [Hc Hr]. apply negb_true_iff in Hc.
  apply orb_false_iff in Hc as [Hc1 Hc2].
  simpl. rewrite Hc1, Hc2. now apply IH.
Qed.

(** X6: the label shown for [@tag[content]] is [content], for any tag
    without an opening bracket or a line break and any content; a label
    that does not start with [@] only loses one closing bracket at its
    end. *)
Theorem display_of_tagged :
  forall tag content ts t,
    no_open_or_break tag = true ->
    getDisplayLabel (mkPayload t ("@" ++ tag ++ "[" ++ content ++ "]") ts) = content
    /\ (forall c rest,
          Ascii.eqb c "@" = false ->
          getDisplayLabel (mkPayload t (String c rest) ts)
          = Label.strip_close (String c rest)).
Proof.
  intros tag content ts t H. split.
  - unfold getDisplayLabel. simpl label.
    change ("@" ++ tag ++ "[" ++ content ++ "]")%string
      with (String "@" (tag ++ String "[" (content ++ "]")))%string.
    unfold Label.strip_tag. simpl (Ascii.eqb "@" "@"). cbv iota.
    rewrite (after_open_tag tag _ H). apply strip_close_snoc.
  - intros c rest Hc. unfold getDisplayLabel, Label.strip_tag. simpl label.
    cbv iota. now rewrite Hc.
Qed.

Lemma display_of_tagged_witness :
  getDisplayLabel (ev mousedown "@Mouse[Down [Left]]" 3) = "Down [Left]"%string.
Proof.
  exact (proj1 (display_of_tagged "Mouse" "Down [Left]" 3 mousedown eq_refl)).
Defined.

Definition no_close_or_break (s : string) : bool :=
  forallb (fun c => negb (Ascii.eqb c "]" || Label.is_line_terminator c))
          (list_ascii_of_string s).

Definition no_open (s : string) : bool :=
  forallb (fun c => negb (Ascii.eqb c "[")) (list_ascii_of_string s).

Lemma group_at_name (b rest : string) :
  no_close_or_break b = true ->
  Label.group_at (b ++ String "]" rest) = Some b.
Proof.
  induction b as [|c b IH]; intros H; [reflexivity|].
  unfold no_close_or_break in H. simpl in H.
  apply andb_true_iff in H as [Hc Hr]. apply negb_true_iff in Hc.
  apply orb_false_iff in Hc as [Hc1 Hc2].
  simpl. rewrite Hc1, Hc2. now rewrite (IH Hr).
Qed.

Lemma group_at_sound (s g : string) :
  Label.group_at s = Some g ->
  no_close_or_break g = true /\ exists rest, s = (g ++ String "]" rest)%string.
Proof.
  revert g. induction s as [|c s IH]; intros g; [discriminate|].
  simpl. destruct (Ascii.eqb c "]") eqn:E1.
  - intros [= <-]. apply Ascii.eqb_eq in E1. subst c.
    split; [reflexivity|now exists s].
  - destruct (Label.is_line_terminator c) eqn:E2; [discriminate|].
    destruct (Label.group_at s) as [g'|]; [|discriminate].
    intros [= <-]. destruct (IH g' eq_refl) as [Hg [rest ->]].
    split; [|now exists rest].
    unfold no_close_or_break. simpl. rewrite E1, E2. exact Hg.
Qed.

Lemma first_group_sound (s g : string) :
  Label.first_group s = Some g ->
  no_close_or_break g = true
  /\ exists before rest, s = (before ++ "[" ++ g ++ "]" ++ rest)%string.
Proof.
  induction s as [|c s IH]; [discriminate|].
  simpl Label.first_group.
  assert (Hlater : Label.first_group s = Some g ->
                   no_close_or_break g = true
                   /\ exists before rest,
                        String c s = (before ++ "[" ++ g ++ "]" ++ rest)%string).
  { intros H. destruct (IH H) as [Hg [before [rest ->]]].
    split; [exact Hg|]. now exists (String c before), rest. }
  destruct (Ascii.eqb c "[") eqn:Ec; [|exact Hlater].
  destruct (Label.group_at s) as [g'|] eqn:Hg; [|exact Hlater].
  intros [= ->]. apply Ascii.eqb_eq in Ec. subst c.
  destruct (group_at_sound s g Hg) as [Hok [rest ->]].
  split; [exact Hok|]. now exists ""%string, rest.
Qed.

Lemma prefix_app (n r : string) : String.prefix n (n ++ r) = true.
Proof.
  induction n as [|d n IH]; simpl; [now destruct r|].
  destruct (ascii_dec d d); [exact IH|congruence].
Qed.

Lemma contains_middle (before n rest : string) :
  Label.contains n (before ++ n ++ rest) = true.
Proof.
  induction before as [|c before IH]; [|now apply contains_cons].
  change ("" ++ n ++ rest)%string with (n ++ rest)%string.
  assert (Hp : forall s, String.prefix n s = true -> Label.contains n s = true)
    by (intros [|c s] H;
        [change (Label.contains n "") with (String.prefix n "" || false)
        |change (Label.contains n (String c s))
           with (String.prefix n (String c s) || Label.contains n s)];
        now rewrite H).
  apply Hp, prefix_app.
Qed.

(** X7: the button name of a label.  When the text before the first
    opening bracket has none and the name has no closing bracket or line
    break, the name read from [before[name]rest] is [name]; and whatever the
    label, a name that is read has no closing bracket or line break and
    stands in the label between brackets. *)
Theorem button_name_of_label :
  (forall before btnName rest,
      no_open before = true ->
      no_close_or_break btnName = true ->
      Label.first_group (before ++ "[" ++ btnName ++ "]" ++ rest) = Some btnName)
  /\ (forall lbl btnName,
      Label.first_group lbl = Some btnName ->
      no_close_or_break btnName = true
      /\ Label.contains ("[" ++ btnName ++ "]") lbl = true).
Proof.
  split.
  - intros before b rest Hb Hn.
    induction before as [|c before IH].
    + change ("" ++ "[" ++ b ++ "]" ++ rest)%string
        with (String "[" (b ++ String "]" rest))%string.
      simpl. now rewrite (group_at_name b rest Hn).
    + unfold no_open in Hb. simpl in Hb.
      apply andb_true_iff in Hb as [Hc Hr]. apply negb_true_iff in Hc.
      simpl. rewrite Hc. now apply IH.
  - intros lbl b H. destruct (first_group_sound lbl b H) as [Hok [before [rest ->]]].
    split; [exact Hok|].
    replace ("[" ++ b ++ "]" ++ rest)%string
      with (("[" ++ b ++ "]") ++ rest)%string
      by (simpl; now rewrite <- string_app_assoc).
    apply contains_middle.
Qed.

Lemma button_name_of_label_witness :
  Label.first_group "Click [Left] x2 [Right]" = Some "Left"%string.
Proof.
  exact (proj1 button_name_of_label "Click " "Left" " x2 [Right]" eq_refl eq_refl).
Defined.

(** ** Typing marks *)

Definition all_alnum (s : string) : bool :=
  forallb Label.alnum (list_ascii_of_string s).

(** A row marked as a typing sequence is a key row whose bare content is a
    non-empty run of letters and digits; a row marked as not typing is a
    key row; a row without a mark is not a key row. *)
Definition mark_ok (row : LogItem) : Prop :=
  match isTypingSequence row with
  | Some true =>
      event_type (payload row) = key
      /\ Label.bare (label (payload row)) <> ""%string
      /\ all_alnum (Label.bare (label (payload row))) = true
  | Some false => event_type (payload row) = key
  | None => event_type (payload row) <> key
  end.

Lemma all_alnum_app (x y : string) :
  all_alnum (x ++ y) = all_alnum x && all_alnum y.
Proof.
  unfold all_alnum. induction x as [|c x IH]; simpl; [reflexivity|].
  now rewrite IH, andb_assoc.
Qed.

Lemma isTextKey_inv (s : string) :
  Label.isTextKey s = true -> exists c, s = String c "" /\ Label.alnum c = true.
Proof.
  destruct s as [|c [|d s]]; simpl; try discriminate. intros H. now exists c.
Qed.

Lemma bare_key_wrapped (w : string) :
  Label.bare ("@Key[" ++ w ++ "]") = w.
Proof.
  unfold Label.bare.
  change ("@Key[" ++ w ++ "]")%string
    with (String "@" (String "K" (String "e" (String "y" (String "[" (w ++ "]")%string))))).
  rewrite strip_key_prefix_tag by reflexivity. apply strip_close_snoc.
Qed.

Lemma mark_ok_step R env e l l' :
  Forall mark_ok l ->
  setLogs_updater_with R env e l = Some l' ->
  Forall mark_ok l'.
Proof.
  intros Hl Hu.
  destruct (updater_cases R env e l l' Hu) as [older [row [-> [Hs [Hr _]]]]].
  apply Forall_app. split; [now apply subseq_Forall with (l2 := l)|].
  constructor; [|constructor].
  rewrite Forall_forall in Hl.
  destruct Hr as [ll H He Hk|ll H He Hk Hlbl|ll H He Hk Htxt Hmark|].
  - (* pointer-move: the old row was not a key row, so it had no mark *)
    apply last_log_In, Hl in H. unfold mark_ok in *. simpl.
    destruct (isTypingSequence ll) as [[|]|]; try (destruct H; congruence);
      try congruence.
  - apply last_log_In, Hl in H. exact H.
  - apply last_log_In, Hl in H. unfold mark_ok in *.
    rewrite Hmark in H. destruct H as [_ [Hne Hal]].
    unfold typed_item. cbn [isTypingSequence payload label event_type].
    rewrite Hmark.
    split; [exact Hk|].
    rewrite (string_app_assoc (Label.bare (label (payload ll)))
               (Label.bare (label e)) "]"), bare_key_wrapped.
    destruct (isTextKey_inv _ Htxt) as [c [-> Hc]].
    split.
    + destruct (Label.bare (label (payload ll))); [congruence|discriminate].
    + rewrite all_alnum_app, Hal. unfold all_alnum. simpl. now rewrite Hc.
  - unfold appended_with.
    destruct (EventType_eqb (event_type e) key) eqn:Hk.
    + apply EventType_eqb_eq in Hk. unfold mark_ok. simpl.
      destruct (Label.isTextKey (Label.bare (label e))) eqn:Htxt; [|exact Hk].
      destruct (isTextKey_inv _ Htxt) as [c [Hc Ha]]. rewrite Hc.
      repeat split; [exact Hk|discriminate|].
      unfold all_alnum. simpl. now rewrite Ha.
    + unfold mark_ok. simpl. intros E. rewrite E in Hk. discriminate.
Qed.

(** X8: the typing marks stay consistent, whatever the run-time.  After any
    sequence of events that returns a log, applied to a log whose rows are
    well marked (the empty log for one),
    every row marked as a typing sequence is a key row whose bare content
    is a non-empty run of ASCII letters and digits, every row marked as not
    typing is a key row, and no row of another kind carries a mark. *)
Theorem marks_stay_consistent :
  forall (R : Runtime) evs l l',
    Forall mark_ok l ->
    feed_with R evs l = Some l' ->
    Forall mark_ok l'.
Proof.
  intros R. induction evs as [|[env e] evs IH]; intros l l' Hl Hf; simpl in Hf.
  - now injection Hf as <-.
  - destruct (setLogs_updater_with R env e l) as [l1|] eqn:Hu; [|discriminate].
    apply (IH l1 l'); [|exact Hf].
    now apply mark_ok_step with (R := R) (env := env) (e := e) (l := l).
Qed.

Lemma marks_stay_consistent_witness :
  Forall mark_ok
    [mkLogItem (fresh_id env0) (ev key "@Key[ab]" 2) 1 (Some true);
     new_item env1 (ev click "Click [Left]" 9)].
Proof.
  exact (marks_stay_consistent model_runtime
           [(env0, ev key "@key[a]" 1); (env1, ev key "@key[b]" 2);
            (env1, ev click "Click [Left]" 9)]
           [] _ (Forall_nil _) eq_refl).
Defined.

Lemma strip_key_prefix_cases (s : string) :
  Label.strip_key_prefix s = s
  \/ exists k e y rest,
       s = String "@" (String k (String e (String y (String "[" rest))))
       /\ Label.eq_ci "k" "K" k = true /\ Label.eq_ci "e" "E" e = true
       /\ Label.eq_ci "y" "Y" y = true
       /\ Label.strip_key_prefix s = rest.
Proof.
  destruct s as [|c0 [|c1 [|c2 [|c3 [|c4 rest]]]]]; try (now left).
  unfold Label.strip_key_prefix.
  destruct (Ascii.eqb c0 "@") eqn:E0; [|now left].
  destruct (Label.eq_ci "k" "K" c1) eqn:E1; [|now left].
  destruct (Label.eq_ci "e" "E" c2) eqn:E2; [|now left].
  destruct (Label.eq_ci "y" "Y" c3) eqn:E3; [|now left].
  destruct (Ascii.eqb c4 "[") eqn:E4; [|now left].
  right. apply Ascii.eqb_eq in E0, E4. subst c0 c4.
  exists c1, c2, c3, rest. simpl. now repeat split.
Qed.

Lemma eq_ci_plain (lower upper c : ascii) :
  Label.eq_ci lower upper c = true -> c = lower \/ c = upper.
Proof.
  unfold Label.eq_ci. intros H. apply orb_true_iff in H as [H|H];
    apply Ascii.eqb_eq in H; tauto.
Qed.

(** X9: what is shown for a typed word is what the engine holds.  Whenever
    the bare content of a label is a non-empty run of letters and digits,
    the overlay displays exactly that bare content. *)
Theorem display_is_bare_for_typed :
  forall p,
    Label.bare (label p) <> ""%string ->
    all_alnum (Label.bare (label p)) = true ->
    getDisplayLabel p = Label.bare (label p).
Proof.
  intros [t s ts] Hne Hal. unfold getDisplayLabel. simpl in *.
  unfold Label.bare in *.
  destruct (strip_key_prefix_cases s) as [E|[k [e [y [rest [-> [Hk [He [Hy E]]]]]]]]].
  - rewrite E in *. f_equal.
    destruct s as [|c s']; [reflexivity|].
    unfold Label.strip_tag.
    destruct (Ascii.eqb c "@") eqn:Ec; [|reflexivity].
    apply Ascii.eqb_eq in Ec. subst c. exfalso.
    destruct s' as [|d s'']; simpl in Hal; discriminate Hal.
  - rewrite E. f_equal. unfold Label.strip_tag. simpl (Ascii.eqb "@" "@"). cbv iota.
    destruct (eq_ci_plain _ _ _ Hk) as [-> | ->];
      destruct (eq_ci_plain _ _ _ He) as [-> | ->];
      destruct (eq_ci_plain _ _ _ Hy) as [-> | ->]; reflexivity.
Qed.

Lemma display_is_bare_for_typed_witness :
  getDisplayLabel (ev key "@KEY[abc]" 3) = Label.bare "@KEY[abc]".
Proof.
  assert (Hne : Label.bare (label (ev key "@KEY[abc]" 3)) <> ""%string)
    by discriminate.
  exact (display_is_bare_for_typed (ev key "@KEY[abc]" 3) Hne eq_refl).
Defined.

(** ** Runs of events *)

(** A key event whose bare content is the one letter or digit [c]. *)
Definition text_key (c : ascii) (p : Env * InputEventPayload) : Prop :=
  event_type (snd p) = key
  /\ Label.bare (label (snd p)) = String c ""
  /\ Label.alnum c = true.

(** The timestamp of the last event of a run, [t] for the empty run. *)
Definition last_timestamp (evs : list (Env * InputEventPayload)) (t : Z) : Z :=
  fold_left (fun _ p => timestamp (snd p)) evs t.

(** The row of a typed word [w]. *)
Definition word_row (i : Q) (w : string) (t : Z) : LogItem :=
  mkLogItem i (mkPayload key ("@Key[" ++ w ++ "]") t) 1 (Some true).

Lemma typing_more cs evs :
  Forall2 text_key cs evs ->
  forall older i w t,
    (2 <= String.length w)%nat ->
    feed evs (older ++ [word_row i w t])
    = Some (older ++ [word_row i (w ++ string_of_list_ascii cs)
                               (last_timestamp evs t)]).
Proof.
  induction 1 as [|c [env e] cs evs [Hk [Hb Ha]] _ IH]; intros older i w t Hw.
  - simpl. do 3 f_equal. unfold word_row. do 3 f_equal.
    induction w as [|d w IHw]; simpl; [reflexivity|]. f_equal.
    destruct w as [|d' w]; [simpl in Hw; lia|].
    clear IHw Hw. induction (String d' w) as [|x s IHs]; simpl; congruence.
  - simpl in Hk, Hb. cbn [feed].
    rewrite (continuation_step env e _ (word_row i w t));
      [ | apply last_log_snoc | reflexivity | reflexivity | exact Hk
        | | rewrite Hb; exact Ha ].
    + rewrite removelast_last. cbn [word_row id payload label].
      rewrite bare_key_wrapped, Hb.
      rewrite (string_app_assoc w (String c "") "]").
      change (mkLogItem i (mkPayload key ("@Key[" ++ (w ++ String c "") ++ "]")
                                     (timestamp e)) 1 (Some true))
        with (word_row i (w ++ String c "") (timestamp e)).
      rewrite IH.
      * simpl string_of_list_ascii. rewrite <- string_app_assoc. reflexivity.
      * clear -Hw. induction w as [|d w IHw]; simpl in *; [lia|].
        destruct w; simpl in *; lia.
    + intros E. cbn [word_row payload label] in E.
      apply (f_equal Label.bare) in E. rewrite bare_key_wrapped, Hb in E.
      subst w. simpl in Hw. lia.
Qed.

(** X10: typing a word.  On a log whose last row does not absorb the first
    of them, two or more key events whose bare contents are single letters
    or digits (the first two with different full labels) add exactly one
    row: it shows the characters in the order typed, is marked as a typing
    sequence, has repeat count 1, the id given to the first key and the
    timestamp of the last. *)
Theorem typing_word :
  forall c1 p1 c2 p2 cs evs l,
    text_key c1 p1 -> text_key c2 p2 ->
    Forall2 text_key cs evs ->
    label (snd p1) <> label (snd p2) ->
    merges_into_last (snd p1) l = false ->
    exists row,
      feed (p1 :: p2 :: evs) l = Some (skipn (List.length l - 19) l ++ [row])
      /\ getDisplayLabel (payload row)
         = String c1 (String c2 (string_of_list_ascii cs))
      /\ isTypingSequence row = Some true
      /\ count row = 1
      /\ id row = fresh_id (fst p1)
      /\ timestamp (payload row) = last_timestamp evs (timestamp (snd p2)).
Proof.
  intros c1 [envA e1] c2 [envB e2] cs evs l [K1 [B1 A1]] [K2 [B2 A2]] Hrest Hne Hm.
  simpl in *.
  exists (word_row (fresh_id envA) (String c1 (String c2 (string_of_list_ascii cs)))
            (last_timestamp evs (timestamp e2))).
  split.
  - assert (Hd : dedups e1 = false) by (unfold dedups; now rewrite K1).
    cbn [feed].
    rewrite (updater_new_entry envA e1 l Hm Hd), keep_last_20_snoc.
    unfold appended_item. rewrite K1. cbn [EventType_eqb].
    rewrite (continuation_step envB e2 _ (new_key_item envA e1));
      [ | apply last_log_snoc | exact K1
        | unfold new_key_item; cbn [isTypingSequence]; now rewrite B1; simpl; rewrite A1
        | exact K2 | simpl; congruence | rewrite B2; exact A2 ].
    rewrite removelast_last. cbn [new_key_item id payload label].
    rewrite B1, B2.
    change (mkLogItem (fresh_id envA)
              (mkPayload key ("@Key[" ++ String c1 "" ++ String c2 "" ++ "]")
                         (timestamp e2)) 1 (Some true))
      with (word_row (fresh_id envA) (String c1 (String c2 "")) (timestamp e2)).
    rewrite (typing_more cs evs Hrest); [reflexivity|simpl; lia].
  - unfold word_row, getDisplayLabel. cbn [payload label id count isTypingSequence timestamp].
    repeat split.
    change (Label.strip_tag ("@Key[" ++ String c1 (String c2 (string_of_list_ascii cs)) ++ "]"))
      with (String c1 (String c2 (string_of_list_ascii cs)) ++ "]")%string.
    apply strip_close_snoc.
Qed.

Lemma typing_word_witness :
  exists row,
    feed [(env0, ev key "@key[e]" 1); (env1, ev key "@key[c]" 2);
          (env1, ev key "@key[h]" 3); (env1, ev key "@key[o]" 4)] []
    = Some ([] ++ [row])
    /\ getDisplayLabel (payload row) = "echo"%string
    /\ isTypingSequence row = Some true
    /\ count row = 1
    /\ id row = fresh_id env0
    /\ timestamp (payload row) = 4.
Proof.
  assert (Hne : label (ev key "@key[e]" 1) <> label (ev key "@key[c]" 2))
    by discriminate.
  apply (typing_word "e" (env0, ev key "@key[e]" 1) "c" (env1, ev key "@key[c]" 2)
           ["h"; "o"]%char
           [(env1, ev key "@key[h]" 3); (env1, ev key "@key[o]" 4)] []).
  - now repeat split.
  - now repeat split.
  - repeat constructor.
  - exact Hne.
  - reflexivity.
Defined.

Lemma move_burst_from moves :
  Forall (fun p => event_type (snd p) = mousemove) moves ->
  forall older ll,
    event_type (payload ll) = mousemove ->
    feed moves (older ++ [ll])
    = Some (older
            ++ [mkLogItem (id ll)
                  (fold_left (fun _ p => snd p) moves (payload ll))
                  (count ll + Z.of_nat (List.length moves))
                  (isTypingSequence ll)]).
Proof.
  induction 1 as [|[env e] moves He _ IH]; intros older ll Hk.
  - simpl. rewrite Z.add_0_r. now destruct ll.
  - simpl in He. cbn [feed].
    rewrite (updater_mousemove env e _ ll (last_log_snoc older ll) Hk He).
    rewrite replace_last_snoc, (IH older (moved_item ll e) He).
    cbn [moved_item id payload count isTypingSequence fold_left snd List.length].
    do 4 f_equal. lia.
Qed.

(** X11: a burst of pointer-moves costs no rows.  Any number of consecutive
    pointer-moves arriving on a log whose last row is a pointer-move leave
    every other row and the length unchanged; the last row keeps its id,
    carries the last move and has its repeat count raised by the number of
    moves. *)
Theorem move_burst :
  forall moves l ll,
    Forall (fun p => event_type (snd p) = mousemove) moves ->
    last_log l = Some ll ->
    event_type (payload ll) = mousemove ->
    exists l',
      feed moves l = Some l'
      /\ l' = removelast l
              ++ [mkLogItem (id ll)
                    (fold_left (fun _ p => snd p) moves (payload ll))
                    (count ll + Z.of_nat (List.length moves))
                    (isTypingSequence ll)]
      /\ List.length l' = List.length l.
Proof.
  intros moves l ll Hm Hl Hk. eexists. split; [|split; [reflexivity|]].
  - rewrite (last_log_split l ll Hl) at 1. now apply move_burst_from.
  - rewrite (last_log_split l ll Hl) at 2. now rewrite !length_app.
Qed.

Lemma move_burst_witness :
  feed [(env1, ev mousemove "Move 1" 6); (env1, ev mousemove "Move 2" 7);
        (env1, ev mousemove "Move 3" 8)]
       [new_item env0 (ev key "@key[Up]" 1); new_item env0 (ev mousemove "Move 0" 5)]
  = Some [new_item env0 (ev key "@key[Up]" 1);
          mkLogItem (fresh_id env0) (ev mousemove "Move 3" 8) 4 None].
Proof.
  destruct (move_burst
              [(env1, ev mousemove "Move 1" 6); (env1, ev mousemove "Move 2" 7);
               (env1, ev mousemove "Move 3" 8)]
              [new_item env0 (ev key "@key[Up]" 1);
               new_item env0 (ev mousemove "Move 0" 5)]
              (new_item env0 (ev mousemove "Move 0" 5))) as [l' [H [-> _]]].
  - repeat constructor.
  - reflexivity.
  - reflexivity.
  - exact H.
Defined.

Lemma key_hold_from n :
  forall env e older ll,
    event_type e = key -> event_type (payload ll) = key ->
    label (payload ll) = label e ->
    feed (repeat (env, e) n) (older ++ [ll])
    = Some (older ++ [mkLogItem (id ll) (payload ll) (count ll + Z.of_nat n)
                                (isTypingSequence ll)]).
Proof.
  induction n as [|n IH]; intros env e older ll He Hk Hlbl.
  - simpl. rewrite Z.add_0_r. now destruct ll.
  - cbn [repeat feed]. rewrite (updater_key env e _ He). unfold key_block.
    rewrite last_log_snoc, Hk, Hlbl, String.eqb_refl. cbn [EventType_eqb andb].
    rewrite replace_last_snoc, (IH env e older (repeated_item ll) He Hk Hlbl).
    cbn [repeated_item id payload count isTypingSequence].
    do 4 f_equal. lia.
Qed.

(** X12: a held key costs no rows.  A key event arriving [n] times on a
    log whose last row is a key row with the same full label raises that
    row's repeat count by [n] and changes nothing else: not its label, its
    timestamp or its typing mark, not the other rows. *)
Theorem key_hold :
  forall n env e l ll,
    event_type e = key ->
    last_log l = Some ll ->
    event_type (payload ll) = key ->
    label (payload ll) = label e ->
    feed (repeat (env, e) n) l
    = Some (removelast l
            ++ [mkLogItem (id ll) (payload ll) (count ll + Z.of_nat n)
                          (isTypingSequence ll)]).
Proof.
  intros n env e l ll He Hl Hk Hlbl.
  rewrite (last_log_split l ll Hl) at 1. now apply key_hold_from.
Qed.

Lemma key_hold_witness :
  feed (repeat (env1, ev key "@key[a]" 9) 3) [new_key_item env0 (ev key "@key[a]" 4)]
  = Some [mkLogItem (fresh_id env0) (ev key "@key[a]" 4) 4 (Some true)].
Proof.
  exact (key_hold 3 env1 (ev key "@key[a]" 9) [new_key_item env0 (ev key "@key[a]" 4)]
           (new_key_item env0 (ev key "@key[a]" 4)) eq_refl eq_refl eq_refl eq_refl).
Defined.

(** X13: the ceiling holds as long as no click or double-click names a
    button.  Any sequence of events none of which is handled by a cleanup
    block, applied to a log of at most 20 rows, yields a log, and it has at
    most 20 rows. *)
Theorem capacity_without_cleanup :
  forall evs l,
    Forall (fun p => dedups (snd p) = false) evs ->
    (List.length l <= 20)%nat ->
    exists l', feed evs l = Some l' /\ (List.length l' <= 20)%nat.
Proof.
  induction evs as [|[env e] evs IH]; intros l Hev Hl.
  - now exists l.
  - inversion Hev as [|? ? Hd Hrest]; subst. simpl in Hd.
    destruct (capacity_outside_cleanup env e l Hd) as [l1 [Hu Hlen]].
    cbn [feed]. rewrite Hu. apply IH; [exact Hrest|].
    rewrite Nat.max_l in Hlen by exact Hl. exact Hlen.
Qed.

Lemma capacity_without_cleanup_witness :
  exists l',
    feed (system_events 25) [] = Some l' /\ (List.length l' <= 20)%nat.
Proof.
  apply (capacity_without_cleanup (system_events 25) []).
  - repeat constructor.
  - simpl. lia.
Defined.

(** ** What a cleanup drops and what it never drops *)

(** X14: the cleanup for a plain button name.  When the first bracketed
    group of a click or double-click label is a non-empty name without
    pattern syntax, the rows dropped are exactly those not more than 500 ms
    older than the event, of kind pointer-down or pointer-up (and click, for
    a double-click), whose label contains the bracketed name; the others
    stay in their order and the event is appended with repeat count 1. *)
Theorem cleanup_for_plain_names :
  forall env e l btnName,
    Label.first_group (label e) = Some btnName ->
    btnName <> ""%string ->
    literal_name btnName = true ->
    (event_type e = click ->
     setLogs_updater env e l
     = Some (filter (fun log => negb (dropped_by [mousedown; mouseup] btnName e log)) l
             ++ [mkLogItem (fresh_id env) e 1 None]))
    /\ (event_type e = doubleclick ->
        setLogs_updater env e l
        = Some (filter (fun log =>
                          negb (dropped_by [click; mousedown; mouseup] btnName e log)) l
                ++ [mkLogItem (fresh_id env) e 1 None])).
Proof.
  intros env e l b Hg Hb Hlit. split; intros He.
  - rewrite (cleanup_literal env e l b (or_introl He) Hg Hb Hlit). now rewrite He.
  - rewrite (cleanup_literal env e l b (or_intror He) Hg Hb Hlit). now rewrite He.
Qed.

Lemma cleanup_for_plain_names_witness :
  setLogs_updater env1 (ev doubleclick "Double [Left]" 400)
    [new_item env0 (ev mousedown "Down [Right]" 10);
     new_item env0 (ev click "Click [Left]" 100);
     new_item env0 (ev key "@key[Left]" 200);
     new_item env0 (ev click "Click [Left]" 300)]
  = Some [new_item env0 (ev mousedown "Down [Right]" 10);
          new_item env0 (ev key "@key[Left]" 200);
          new_item env1 (ev doubleclick "Double [Left]" 400)].
Proof.
  assert (Hne : "Left"%string <> ""%string) by discriminate.
  exact (proj2 (cleanup_for_plain_names env1 (ev doubleclick "Double [Left]" 400)
                  [new_item env0 (ev mousedown "Down [Right]" 10);
                   new_item env0 (ev click "Click [Left]" 100);
                   new_item env0 (ev key "@key[Left]" 200);
                   new_item env0 (ev click "Click [Left]" 300)]
                  "Left" eq_refl Hne eq_refl) eq_refl).
Defined.

Lemma cleanup_result R env e l l' :
  dedups e = true ->
  setLogs_updater_with R env e l = Some l' ->
  exists matches,
    l' = filter (cleanup_keeps_with (cleanup_kinds e) matches e) l
         ++ [mkLogItem (id_of R env) e 1 None].
Proof.
  intros Hd Hu. destruct (dedups_inv e Hd) as [He [b [Hg Hb]]].
  rewrite (updater_with_cleanup R env e l b He Hg Hb) in Hu.
  destruct (RegExp_new R _) as [m|]; [|discriminate].
  injection Hu as <-. now exists m.
Qed.

(** X15: what a cleanup never drops, whatever the button name and whatever
    the run-time makes of it as a pattern.  A click or double-click handled
    by a cleanup block that returns a log keeps every row more than 500 ms
    older than it and every row that is not a pointer-down, a pointer-up or
    a click; a click keeps the click rows too. *)
Theorem cleanup_spares :
  forall (R : Runtime) env e l l' row,
    dedups e = true ->
    setLogs_updater_with R env e l = Some l' ->
    In row l ->
    500 < timestamp e - timestamp (payload row)
    \/ ~ In (event_type (payload row)) [click; mousedown; mouseup]
    \/ (event_type e = click /\ event_type (payload row) = click) ->
    In row l'.
Proof.
  intros R env e l l' row Hd Hu Hin Hrow.
  destruct (cleanup_result R env e l l' Hd Hu) as [m ->].
  apply in_or_app. left. apply filter_In. split; [exact Hin|].
  unfold cleanup_keeps_with, cleanup_kinds.
  destruct (500 <? timestamp e - timestamp (payload row)) eqn:Hw; [reflexivity|].
  apply Z.ltb_ge in Hw.
  destruct Hrow as [Hold|[Hkind|[He Hk]]]; [lia| |].
  - replace (existsb _ _) with false; [reflexivity|].
    symmetry. destruct (event_type e), (event_type (payload row)); simpl;
      try reflexivity; exfalso; apply Hkind; simpl; tauto.
  - rewrite He, Hk. reflexivity.
Qed.

Lemma cleanup_spares_witness :
  In (new_item env0 (ev mousedown "Down [Left]" 0))
     [new_item env0 (ev mousedown "Down [Left]" 0);
      new_item env1 (ev click "Click [Left]" 600)].
Proof.
  apply (cleanup_spares model_runtime env1 (ev click "Click [Left]" 600)
           [new_item env0 (ev mousedown "Down [Left]" 0)]).
  - reflexivity.
  - reflexivity.
  - now left.
  - left. simpl. lia.
Defined.

(** X16: a cleanup that finds nothing to drop appends at any length,
    whatever the button name and the run-time.  When the log holds no
    pointer-down, pointer-up or click row, a click or double-click handled
    by a cleanup block that returns a log keeps the whole log and adds its
    row: the result is one row longer than the log, however long that
    was. *)
Theorem cleanup_appends_without_ceiling :
  forall (R : Runtime) env e l l',
    dedups e = true ->
    Forall (fun row => ~ In (event_type (payload row)) [click; mousedown; mouseup]) l ->
    setLogs_updater_with R env e l = Some l' ->
    l' = l ++ [mkLogItem (id_of R env) e 1 None]
    /\ List.length l' = S (List.length l).
Proof.
  intros R env e l l' Hd Hl Hu.
  destruct (cleanup_result R env e l l' Hd Hu) as [m ->].
  assert (Hall : filter (cleanup_keeps_with (cleanup_kinds e) m e) l = l).
  { clear Hu. induction l as [|row l IH]; [reflexivity|].
    inversion Hl as [|? ? Hrow Hrest]; subst. simpl.
    replace (cleanup_keeps_with _ m e row) with true; [now rewrite (IH Hrest)|].
    symmetry. unfold cleanup_keeps_with, cleanup_kinds.
    destruct (500 <? _); [reflexivity|].
    replace (existsb _ _) with false; [reflexivity|].
    symmetry. destruct (event_type e), (event_type (payload row)); simpl;
      try reflexivity; exfalso; apply Hrow; simpl; tauto. }
  rewrite Hall. split; [reflexivity|].
  rewrite length_app. simpl. lia.
Qed.

Lemma cleanup_appends_without_ceiling_witness :
  setLogs_updater env1 (ev doubleclick "Double [Left]" 100) (system_log 30)
  = Some (system_log 30 ++ [new_item env1 (ev doubleclick "Double [Left]" 100)]).
Proof.
  assert (H : Forall (fun row => ~ In (event_type (payload row))
                                     [click; mousedown; mouseup]) (system_log 30)).
  { apply Forall_forall. intros row Hin.
    unfold system_log in Hin. apply in_map_iff in Hin as [k [<- _]].
    simpl. intros [H|[H|[H|[]]]]; discriminate H. }
  destruct (cleanup_appends_without_ceiling model_runtime env1
              (ev doubleclick "Double [Left]" 100)
              (system_log 30) _ eq_refl H eq_refl) as [E _].
  exact (f_equal Some E).
Defined.

(** ** The rows shown *)

Lemma set_filter_other (k t : EventType) (checked : bool) (f : Filters) :
  k <> t -> filter_of (set_filter k checked f) t = filter_of f t.
Proof. destruct k, t; intros H; try reflexivity; now elim H. Qed.

Lemma set_filter_same (k : EventType) (checked : bool) (f : Filters) :
  filter_of (set_filter k checked f) k = checked.
Proof. now destruct k. Qed.

Lemma check_all_untouched (t : EventType) changes :
  Forall (fun c => fst c <> t) changes ->
  forall f, filter_of (check_all changes f) t = filter_of f t.
Proof.
  induction 1 as [|[k checked] changes Hk _ IH]; intros f; [reflexivity|].
  simpl in *. rewrite IH. now apply set_filter_other.
Qed.

(** X17: three kinds are out of the panel's reach.  The settings panel has
    checkboxes for pointer-move, click, double-click, key, drag and system
    only; so whatever boxes are ticked or cleared, starting from the initial
    filters, every pointer-down and pointer-up row of the log is shown and no
    drag-start row ever is. *)
Theorem panel_cannot_reach_three_kinds :
  forall changes logs row,
    Forall (fun c => In (fst c) filter_keys) changes ->
    In row logs ->
    let f := check_all changes initial_filters in
    (event_type (payload row) = mousedown \/ event_type (payload row) = mouseup ->
     In row (shown f logs))
    /\ (event_type (payload row) = dragstart -> ~ In row (shown f logs)).
Proof.
  intros changes logs row Hc Hin f.
  assert (Hun : forall t, ~ In t filter_keys ->
                filter_of f t = filter_of initial_filters t).
  { intros t Ht. apply check_all_untouched.
    apply Forall_forall. intros c Hcin E.
    rewrite Forall_forall in Hc. apply Ht. rewrite <- E. now apply Hc. }
  split.
  - intros Hk. apply filter_In. split; [exact Hin|].
    destruct Hk as [-> | ->]; rewrite Hun; try reflexivity;
      simpl; intros H; repeat destruct H as [H|H]; try discriminate H; exact H.
  - intros Hk H. apply filter_In in H as [_ H]. rewrite Hk, Hun in H.
    + discriminate H.
    + simpl. intros H'. repeat destruct H' as [H'|H']; try discriminate H'; exact H'.
Qed.

Lemma panel_cannot_reach_three_kinds_witness :
  In (new_item env0 (ev mousedown "Down [Left]" 0))
     (shown (check_all [(click, false); (mousemove, false); (click, true)]
                       initial_filters)
            [new_item env0 (ev mousedown "Down [Left]" 0);
             new_item env0 (ev dragstart "Drag [Left]" 5)]).
Proof.
  apply (panel_cannot_reach_three_kinds
           [(click, false); (mousemove, false); (click, true)]
           [new_item env0 (ev mousedown "Down [Left]" 0);
            new_item env0 (ev dragstart "Drag [Left]" 5)]
           (new_item env0 (ev mousedown "Down [Left]" 0))).
  - repeat constructor; simpl; tauto.
  - now left.
  - now left.
Defined.

Lemma filter_length_le {A : Type} (f : A -> bool) (l : list A) :
  (List.length (filter f l) <= List.length l)%nat.
Proof. induction l as [|x l IH]; simpl; [lia|]. destruct (f x); simpl; lia. Qed.

Lemma filter_all {A : Type} (f : A -> bool) (l : list A) :
  List.length (filter f l) = List.length l -> filter f l = l.
Proof.
  induction l as [|x l IH]; simpl; [reflexivity|].
  destruct (f x); simpl; intros H.
  - f_equal. apply IH. lia.
  - pose proof (filter_length_le f l). lia.
Qed.

(** X18: the pulse of the latest row.  The index tested is that of the
    filtered rows while the length is that of the whole log; so a shown row
    pulses exactly when it is the last row of the log and the filters hide
    no row at all.  As soon as one row is hidden, no row pulses. *)
Theorem pulse_only_when_nothing_hidden :
  forall f logs index,
    (index < List.length (shown f logs))%nat ->
    (isLatest logs index = true
     <-> shown f logs = logs /\ S index = List.length logs).
Proof.
  intros f logs index Hi. unfold isLatest. rewrite Z.eqb_eq.
  pose proof (filter_length_le
                (fun log => filter_of f (event_type (payload log))) logs) as Hle.
  fold (shown f logs) in Hle.
  split.
  - intros H. split; [|lia].
    apply filter_all. fold (shown f logs). lia.
  - intros [_ H]. lia.
Qed.

Lemma pulse_only_when_nothing_hidden_witness :
  isLatest [new_item env0 (ev key "@key[Up]" 1); new_item env0 (ev click "Click [Left]" 2)] 1
  = true.
Proof.
  apply (proj2 (pulse_only_when_nothing_hidden initial_filters
                  [new_item env0 (ev key "@key[Up]" 1);
                   new_item env0 (ev click "Click [Left]" 2)] 1
                  (Nat.lt_succ_diag_r 1))).
  now split.
Defined.

(** ** The monitor buttons *)

Lemma find_from_spec monitors :
  forall base idx m,
    nth_error monitors idx = Some m ->
    exists j t,
      find_from base monitors (monitor_label (base + idx) m) = Some ((base + j)%nat, t)
      /\ (j <= idx)%nat
      /\ nth_error monitors j = Some t
      /\ monitor_label (base + j) t = monitor_label (base + idx) m
      /\ forall i mi, (i < j)%nat -> nth_error monitors i = Some mi ->
           monitor_label (base + i) mi <> monitor_label (base + idx) m.
Proof.
  induction monitors as [|m0 monitors IH]; intros base idx m Hn.
  - destruct idx; discriminate.
  - cbn [find_from].
    destruct (String.eqb (monitor_label base m0) (monitor_label (base + idx) m)) eqn:E.
    + apply String.eqb_eq in E. exists 0%nat, m0.
      rewrite Nat.add_0_r. repeat split; try assumption; lia.
    + apply String.eqb_neq in E.
      destruct idx as [|idx].
      * rewrite Nat.add_0_r in E. simpl in Hn. injection Hn as ->. now elim E.
      * simpl in Hn. destruct (IH (S base) idx m Hn) as [j [t [Hf [Hj [Ht [Hl Hmin]]]]]].
        replace (S base + idx)%nat with (base + S idx)%nat in * by lia.
        exists (S j), t.
        replace (base + S j)%nat with (S base + j)%nat by lia.
        repeat split; try assumption; try lia.
        intros [|i] mi Hi Hmi.
        -- rewrite Nat.add_0_r. simpl in Hmi. now injection Hmi as <-.
        -- simpl in Hmi. replace (base + S i)%nat with (S base + i)%nat by lia.
           apply Hmin; [lia|exact Hmi].
Qed.

(** X19: a monitor button always finds a target.  For the button of the
    monitor at index [idx], [changeMonitor] does not return early: it
    selects the first monitor whose button shows the same name, which is
    the monitor of the button itself when no other button shows that
    name. *)
Theorem monitor_button_target :
  forall monitors idx m,
    nth_error monitors idx = Some m ->
    exists j t,
      changeMonitor_target monitors (monitor_label idx m) = Some (j, t)
      /\ (j <= idx)%nat
      /\ nth_error monitors j = Some t
      /\ monitor_label j t = monitor_label idx m
      /\ (forall i mi, (i < j)%nat -> nth_error monitors i = Some mi ->
            monitor_label i mi <> monitor_label idx m)
      /\ ((forall i mi, i <> idx -> nth_error monitors i = Some mi ->
             monitor_label i mi <> monitor_label idx m) ->
          j = idx /\ t = m).
Proof.
  intros monitors idx m Hn.
  destruct (find_from_spec monitors 0 idx m Hn) as [j [t [Hf [Hj [Ht [Hl Hmin]]]]]].
  simpl in *. exists j, t. repeat split; try assumption.
  - destruct (Nat.eq_dec j idx) as [E|E]; [exact E|].
    elim (H j t E Ht). exact Hl.
  - destruct (Nat.eq_dec j idx) as [E|E]; [subst j; congruence|].
    elim (H j t E Ht). exact Hl.
Qed.

Lemma monitor_button_target_witness :
  exists j t,
    changeMonitor_target
      [mkMonitor (Some "DELL"%string) (0, 0) (1920, 1080);
       mkMonitor None (1920, 0) (1280, 1024);
       mkMonitor (Some "DELL"%string) (3200, 0) (1920, 1080)]
      (monitor_label 2 (mkMonitor (Some "DELL"%string) (3200, 0) (1920, 1080)))
    = Some (j, t)
    /\ (j <= 2)%nat.
Proof.
  destruct (monitor_button_target
              [mkMonitor (Some "DELL"%string) (0, 0) (1920, 1080);
               mkMonitor None (1920, 0) (1280, 1024);
               mkMonitor (Some "DELL"%string) (3200, 0) (1920, 1080)]
              2 (mkMonitor (Some "DELL"%string) (3200, 0) (1920, 1080)) eq_refl)
    as [j [t [H [Hj _]]]].
  now exists j, t.
Defined.

Lemma numbered_inj (i j : nat) : numbered i = numbered j -> i = j.
Proof.
  unfold numbered. intros H. simpl in H.
  injection H as H.
  apply (f_equal NilEmpty.uint_of_string) in H.
  rewrite !NilEmpty.usu in H. injection H as H.
  apply (f_equal Nat.of_uint) in H. rewrite !Unsigned.of_to in H. lia.
Qed.

Definition unnamed (m : Monitor) : Prop :=
  name m = None \/ name m = Some ""%string.

(** X20: monitors without a name.  A monitor whose name is missing or empty
    gets the button name [Monitor n] with [n] its position counted from 1;
    when no monitor has a name, the button of each monitor selects that very
    monitor. *)
Theorem unnamed_monitors_select_themselves :
  forall monitors idx m,
    Forall unnamed monitors ->
    nth_error monitors idx = Some m ->
    monitor_label idx m = numbered idx
    /\ changeMonitor_target monitors (monitor_label idx m) = Some (idx, m).
Proof.
  intros monitors idx m Hall Hn.
  assert (Hlab : forall i mi, nth_error monitors i = Some mi ->
                 monitor_label i mi = numbered i).
  { intros i mi Hi. apply nth_error_In in Hi.
    rewrite Forall_forall in Hall. unfold monitor_label.
    destruct (Hall mi Hi) as [-> | ->]; reflexivity. }
  split; [now apply Hlab|].
  destruct (find_from_spec monitors 0 idx m Hn) as [j [t [Hf [Hj [Ht [Hl _]]]]]].
  simpl in *. unfold changeMonitor_target. rewrite Hf.
  rewrite (Hlab j t Ht), (Hlab idx m Hn) in Hl.
  apply numbered_inj in Hl. subst j. congruence.
Qed.

Lemma unnamed_monitors_select_themselves_witness :
  changeMonitor_target
    [mkMonitor None (0, 0) (1920, 1080); mkMonitor (Some ""%string) (1920, 0) (1280, 1024)]
    "Monitor 2"
  = Some (1%nat, mkMonitor (Some ""%string) (1920, 0) (1280, 1024)).
Proof.
  refine (proj2 (unnamed_monitors_select_themselves
                   [mkMonitor None (0, 0) (1920, 1080);
                    mkMonitor (Some ""%string) (1920, 0) (1280, 1024)]
                   1 (mkMonitor (Some ""%string) (1920, 0) (1280, 1024)) _ eq_refl)).
  apply Forall_cons; [now left|].
  apply Forall_cons; [now right|apply Forall_nil].
Defined.

(** ** When the update yields a log *)

(** X21: no failure for plain button names.  An event whose label has no
    first bracketed group, or one without pattern syntax, always yields a
    log, whatever its kind and whatever the log before. *)
Theorem update_yields_a_log :
  forall env e l,
    (forall btnName, Label.first_group (label e) = Some btnName ->
                     literal_name btnName = true) ->
    exists l', setLogs_updater env e l = Some l'.
Proof.
  intros env e l Hplain.
  destruct (dedups e) eqn:Hd.
  - unfold dedups, has_button in Hd.
    apply andb_true_iff in Hd as [Hk Hb].
    destruct (Label.first_group (label e)) as [b|] eqn:Hg; [|discriminate].
    apply negb_true_iff, String.eqb_neq in Hb.
    assert (He : event_type e = click \/ event_type e = doubleclick).
    { apply orb_true_iff in Hk as [Hk|Hk]; apply EventType_eqb_eq in Hk; tauto. }
    eexists. exact (cleanup_literal env e l b He Hg Hb (Hplain b eq_refl)).
  - destruct (capacity_outside_cleanup env e l Hd) as [l' [Hu _]]. now exists l'.
Qed.

Lemma update_yields_a_log_witness :
  exists l', setLogs_updater env1 (ev click "Click [Left]" 50)
               [new_item env0 (ev mousedown "Down [Left]" 0)] = Some l'.
Proof.
  apply (update_yields_a_log env1 (ev click "Click [Left]" 50)
           [new_item env0 (ev mousedown "Down [Left]" 0)]).
  intros b H. simpl in H. injection H as <-. reflexivity.
Defined.
